(** * CRM module: a model of [src/crm.js], [src/db.js] and the argument
    parser of [src/cli.js]

    The persistence layer ([SupabaseDB] in db.js) talks to a hosted
    PostgreSQL database through the Supabase query builder.  The model has
    three layers, bottom up:

    - [Js]: the JavaScript values that travel between the layers.  Objects
      are finite maps from property names to values; a missing property is
      [undefined].
    - [Pg]: the four tables of the SQL schema shipped in the README, and an
      interpreter for the requests the query builder can send (select,
      insert, update, delete with [eq] filters, ordering, limits, embedded
      resources and [.single()]).
    - [DB] and [CRM]: db.js and crm.js, method by method, written in a small
      state-and-exception monad over the store, the request log and the two
      clocks (the caller's [new Date()] and the server's [now()]).

    Numbers are integers ([Z]): ids, positions and deal values.  Timestamps
    are integers too (an ISO-8601 string printed by [toISOString] orders the
    same way as the instant it denotes). *)

From stdpp Require Import gmap strings list fin_maps sorting.
From Stdlib Require Import ZArith Lia.

Open Scope Z_scope.

(** ** JavaScript values *)

Module Js.

Inductive JsVal :=
| JNull
| JBool (b : bool)
| JNum (n : Z)
| JStr (s : string)
| JDate (t : Z)                       (* an ISO-8601 timestamp string *)
| JArr (xs : list string)             (* text[] / array of strings *)
| JObj (kvs : list (string * string)) (* jsonb / free-form map *).

#[global] Instance JsVal_eq_dec : EqDecision JsVal.
Proof. solve_decision. Defined.

(** A property read [o.k] is [o !! k]; [None] is [undefined]. *)
Abbreviation Obj := (gmap string JsVal).

(** ToBoolean. *)
Definition truthy (v : option JsVal) : bool :=
  match v with
  | None | Some JNull => false
  | Some (JBool b) => b
  | Some (JNum n) => negb (n =? 0)
  | Some (JStr s) => negb (String.eqb s "")
  | Some (JDate _) | Some (JArr _) | Some (JObj _) => true
  end.

(** [v || d] with a defined right operand. *)
Definition or_else (v : option JsVal) (d : JsVal) : JsVal :=
  match v with
  | Some x => if truthy v then x else d
  | None => d
  end.

(** [a === b]; arrays and objects compare by reference, and the two sides
    never hold the same reference in the code modelled here. *)
Definition strict_eq (a b : option JsVal) : bool :=
  match a, b with
  | None, None => true
  | Some JNull, Some JNull => true
  | Some (JBool x), Some (JBool y) => bool_decide (x = y)
  | Some (JNum x), Some (JNum y) => x =? y
  | Some (JStr x), Some (JStr y) => String.eqb x y
  | Some (JDate x), Some (JDate y) => x =? y
  | _, _ => false
  end.

(** An object literal [{ k1: e1, k2: e2, ... }] as it reaches the wire:
    JSON.stringify drops the properties whose value is [undefined]. *)
Definition literal (kvs : list (string * option JsVal)) : Obj :=
  list_to_map (omap (λ kv, (λ v, (kv.1, v)) <$> kv.2) kvs).

(** [parseFloat(v) || 0] on a value read from a decimal column (a number
    or null). *)
Definition parseFloat_or_0 (v : option JsVal) : Z :=
  match v with
  | Some (JNum n) => n
  | _ => 0
  end.

End Js.
Export Js.

(** ** The store: PostgreSQL behind PostgREST *)

Module Pg.

Inductive Table := crm_stages | crm_contacts | crm_interactions | crm_tasks.

#[global] Instance Table_eq_dec : EqDecision Table.
Proof. solve_decision. Defined.

Definition table_name (t : Table) : string :=
  match t with
  | crm_stages => "crm_stages"
  | crm_contacts => "crm_contacts"
  | crm_interactions => "crm_interactions"
  | crm_tasks => "crm_tasks"
  end.

(** *** Schema (the [create table] statements of the README) *)

Inductive Kind := KInt | KText | KBool | KTime | KTextArr | KJson | KDec.

Inductive Default :=
| DNull                 (* no default clause *)
| DSerial               (* serial: nextval of the table's sequence *)
| DNow                  (* default now() *)
| DConst (v : JsVal).

Inductive OnDelete := SetNull | Cascade.

Record Column := {
  c_name : string;
  c_kind : Kind;
  c_notnull : bool;
  c_default : Default;
  c_ref : option (Table * OnDelete)
}.

Definition col (n : string) (k : Kind) (nn : bool) (d : Default) : Column :=
  {| c_name := n; c_kind := k; c_notnull := nn; c_default := d; c_ref := None |}.

Definition fk (n : string) (t : Table) (a : OnDelete) : Column :=
  {| c_name := n; c_kind := KInt; c_notnull := false; c_default := DNull;
     c_ref := Some (t, a) |}.

Definition schema (t : Table) : list Column :=
  match t with
  | crm_stages =>
      [ col "id" KInt true DSerial;
        col "agent_id" KText true (DConst (JStr "default"));
        col "name" KText true DNull;
        col "position" KInt true DNull;
        col "color" KText false DNull;
        col "created_at" KTime false DNow ]
  | crm_contacts =>
      [ col "id" KInt true DSerial;
        col "agent_id" KText true (DConst (JStr "default"));
        col "name" KText true DNull;
        col "email" KText false DNull;
        col "phone" KText false DNull;
        col "company" KText false DNull;
        col "role" KText false DNull;
        fk "stage_id" crm_stages SetNull;
        col "stage_entered_at" KTime false DNow;
        col "source" KText false DNull;
        col "source_detail" KText false DNull;
        col "assigned_to" KText false DNull;
        col "tags" KTextArr false (DConst (JArr []));
        col "custom_fields" KJson false (DConst (JObj []));
        col "deal_value" KDec false DNull;
        col "currency" KText false (DConst (JStr "AUD"));
        col "is_active" KBool false (DConst (JBool true));
        col "lost_reason" KText false DNull;
        col "created_at" KTime false DNow;
        col "updated_at" KTime false DNow;
        col "last_contact_at" KTime false DNull ]
  | crm_interactions =>
      [ col "id" KInt true DSerial;
        col "agent_id" KText true (DConst (JStr "default"));
        fk "contact_id" crm_contacts Cascade;
        col "type" KText true DNull;
        col "subject" KText false DNull;
        col "content" KText false DNull;
        col "created_by" KText true DNull;
        col "created_by_type" KText false DNull;
        col "scheduled_at" KTime false DNull;
        col "completed_at" KTime false DNull;
        col "metadata" KJson false (DConst (JObj []));
        col "created_at" KTime false DNow ]
  | crm_tasks =>
      [ col "id" KInt true DSerial;
        col "agent_id" KText true (DConst (JStr "default"));
        fk "contact_id" crm_contacts Cascade;
        col "title" KText true DNull;
        col "description" KText false DNull;
        col "due_at" KTime false DNull;
        col "assigned_to" KText false DNull;
        col "priority" KText false (DConst (JStr "medium"));
        col "completed" KBool false (DConst (JBool false));
        col "completed_at" KTime false DNull;
        col "created_at" KTime false DNow ]
  end.

(** A JSON value is accepted by a column when it is null or of the column's
    kind. *)
Definition fits (k : Kind) (v : JsVal) : bool :=
  match v, k with
  | JNull, _ => true
  | JNum _, (KInt | KDec) => true
  | JStr _, KText => true
  | JBool _, KBool => true
  | JDate _, KTime => true
  | JArr _, KTextArr => true
  | JObj _, KJson => true
  | _, _ => false
  end.

(** *** Store *)

Record Store := {
  stage_rows : list Obj;
  contact_rows : list Obj;
  interaction_rows : list Obj;
  task_rows : list Obj;
  stage_seq : Z;
  contact_seq : Z;
  interaction_seq : Z;
  task_seq : Z
}.

Definition rows (t : Table) (s : Store) : list Obj :=
  match t with
  | crm_stages => stage_rows s
  | crm_contacts => contact_rows s
  | crm_interactions => interaction_rows s
  | crm_tasks => task_rows s
  end.

Definition set_rows (t : Table) (l : list Obj) (s : Store) : Store :=
  match t with
  | crm_stages =>
      {| stage_rows := l; contact_rows := contact_rows s; interaction_rows := interaction_rows s;
         task_rows := task_rows s; stage_seq := stage_seq s;
         contact_seq := contact_seq s;
         interaction_seq := interaction_seq s; task_seq := task_seq s |}
  | crm_contacts =>
      {| stage_rows := stage_rows s; contact_rows := l; interaction_rows := interaction_rows s;
         task_rows := task_rows s; stage_seq := stage_seq s;
         contact_seq := contact_seq s;
         interaction_seq := interaction_seq s; task_seq := task_seq s |}
  | crm_interactions =>
      {| stage_rows := stage_rows s; contact_rows := contact_rows s; interaction_rows := l;
         task_rows := task_rows s; stage_seq := stage_seq s;
         contact_seq := contact_seq s;
         interaction_seq := interaction_seq s; task_seq := task_seq s |}
  | crm_tasks =>
      {| stage_rows := stage_rows s; contact_rows := contact_rows s;
         interaction_rows := interaction_rows s; task_rows := l;
         stage_seq := stage_seq s; contact_seq := contact_seq s;
         interaction_seq := interaction_seq s; task_seq := task_seq s |}
  end.

Definition serial (t : Table) (s : Store) : Z :=
  match t with
  | crm_stages => stage_seq s
  | crm_contacts => contact_seq s
  | crm_interactions => interaction_seq s
  | crm_tasks => task_seq s
  end.

(** nextval: sequences advance outside transactions and are never rolled
    back. *)
Definition bump (t : Table) (s : Store) : Store :=
  match t with
  | crm_stages =>
      {| stage_rows := stage_rows s; contact_rows := contact_rows s;
         interaction_rows := interaction_rows s; task_rows := task_rows s;
         stage_seq := stage_seq s + 1; contact_seq := contact_seq s;
         interaction_seq := interaction_seq s; task_seq := task_seq s |}
  | crm_contacts =>
      {| stage_rows := stage_rows s; contact_rows := contact_rows s;
         interaction_rows := interaction_rows s; task_rows := task_rows s;
         stage_seq := stage_seq s; contact_seq := contact_seq s + 1;
         interaction_seq := interaction_seq s; task_seq := task_seq s |}
  | crm_interactions =>
      {| stage_rows := stage_rows s; contact_rows := contact_rows s;
         interaction_rows := interaction_rows s; task_rows := task_rows s;
         stage_seq := stage_seq s; contact_seq := contact_seq s;
         interaction_seq := interaction_seq s + 1;
         task_seq := task_seq s |}
  | crm_tasks =>
      {| stage_rows := stage_rows s; contact_rows := contact_rows s;
         interaction_rows := interaction_rows s; task_rows := task_rows s;
         stage_seq := stage_seq s; contact_seq := contact_seq s;
         interaction_seq := interaction_seq s;
         task_seq := task_seq s + 1 |}
  end.

Definition empty_store : Store :=
  {| stage_rows := []; contact_rows := []; interaction_rows := []; task_rows := [];
     stage_seq := 1; contact_seq := 1; interaction_seq := 1;
     task_seq := 1 |}.


(** *** Requests

    A request is what the Supabase query builder has accumulated when it is
    awaited. *)

Inductive Verb :=
| Select
| Insert (payload : Obj)
| Update (changes : Obj)
| Delete.

Inductive Filter :=
| Eq (column : string) (value : JsVal)
| Overlaps (column : string) (values : list string).

(** An embedded resource [other(c1, c2)] in a select list, resolved through
    the foreign key [e_via]. *)
Record Embed := { e_table : Table; e_via : string; e_cols : list string }.

Record Query := {
  q_from : Table;
  q_verb : Verb;
  q_filters : list Filter;
  q_returning : bool;
  q_columns : option (list string);      (* None is [*] *)
  q_embed : option Embed;
  q_order : option (string * bool);      (* column, ascending *)
  q_limit : option Z;
  q_offset : option Z;
  q_single : bool
}.

Inductive PgError :=
| invalid_request        (* unknown column, or a value the column cannot hold *)
| not_null_violation     (* 23502 *)
| foreign_key_violation  (* 23503 *)
| unique_violation       (* 23505 *)
| no_single_row          (* PGRST116: .single() on zero or several rows *).

Inductive Response (A : Type) :=
| Data (a : A)
| Error (e : PgError).
Arguments Data {A} a.
Arguments Error {A} e.

(** *** Filters, ordering, windows *)

Definition holds (f : Filter) (r : Obj) : Prop :=
  match f with
  | Eq c v => v ≠ JNull ∧ r !! c = Some v
  | Overlaps c vs =>
      match r !! c with
      | Some (JArr xs) => Exists (λ x, x ∈ vs) xs
      | _ => False
      end
  end.

#[global] Instance holds_dec f r : Decision (holds f r).
Proof.
  destruct f as [c v|c vs]; simpl; [apply _|].
  destruct (r !! c) as [[]|]; apply _.
Defined.

Definition matches (fs : list Filter) (r : Obj) : Prop :=
  Forall (λ f, holds f r) fs.

#[global] Instance matches_dec fs r : Decision (matches fs r).
Proof. unfold matches. apply _. Defined.

(** db.js orders by integer and timestamp columns only. *)
Definition sort_key (c : string) (r : Obj) : option Z :=
  match r !! c with
  | Some (JNum n) | Some (JDate n) => Some n
  | _ => None
  end.

(** PostgreSQL's default null placement: last when ascending, first when
    descending. *)
Definition key_le (asc : bool) (a b : option Z) : Prop :=
  match a, b with
  | Some x, Some y => if asc then x ≤ y else y ≤ x
  | Some _, None => asc = true
  | None, Some _ => asc = false
  | None, None => True
  end.

#[global] Instance key_le_dec asc a b : Decision (key_le asc a b).
Proof. destruct a, b, asc; simpl; apply _. Defined.

Definition row_le (c : string) (asc : bool) : relation Obj :=
  λ r1 r2, key_le asc (sort_key c r1) (sort_key c r2).

#[global] Instance row_le_dec c asc r1 r2 : Decision (row_le c asc r1 r2).
Proof. unfold row_le. apply _. Defined.

Definition ordered (q : Query) (l : list Obj) : list Obj :=
  match q_order q with
  | Some (c, asc) => merge_sort (row_le c asc) l
  | None => l
  end.

Definition window (q : Query) (l : list Obj) : list Obj :=
  let l1 := match q_offset q with Some o => drop (Z.to_nat o) l | None => l end in
  match q_limit q with Some n => take (Z.to_nat n) l1 | None => l1 end.

(** *** Returned representation *)

Definition project (cols : option (list string)) (r : Obj) : Obj :=
  match cols with
  | None => r
  | Some cs => list_to_map (omap (λ c, (λ v, (c, v)) <$> r !! c) cs)
  end.

Definition find_id (t : Table) (s : Store) (v : JsVal) : option Obj :=
  head (filter (λ x : Obj, v ≠ JNull ∧ x !! "id" = Some v) (rows t s)).

(** The embedded object [r.other] is flattened: its property [c] is the
    key ["other.c"] of the result, and a missing one is ["other": null]. *)
Definition embedded (s : Store) (e : Embed) (r : Obj) : Obj :=
  match r !! e_via e ≫= find_id (e_table e) s with
  | Some x =>
      list_to_map
        (omap (λ c, (λ v, (table_name (e_table e) +:+ "." +:+ c, v)) <$> x !! c)
              (e_cols e))
  | None => {[ table_name (e_table e) := JNull ]}
  end.

Definition present (q : Query) (s : Store) (r : Obj) : Obj :=
  project (q_columns q) r ∪
  match q_embed q with Some e => embedded s e r | None => ∅ end.

(** *** Constraints *)

Definition column (t : Table) (n : string) : option Column :=
  head (filter (λ c, c_name c = n) (schema t)).

Definition well_typed (t : Table) (o : Obj) : bool :=
  forallb (λ kv : string * JsVal,
             match column t kv.1 with
             | Some c => fits (c_kind c) kv.2
             | None => false
             end)
          (map_to_list o).

Definition default_value (t : Table) (now : Z) (s : Store) (d : Default) : JsVal :=
  match d with
  | DNull => JNull
  | DSerial => JNum (serial t s)
  | DNow => JDate now
  | DConst v => v
  end.

Definition defaults (t : Table) (now : Z) (s : Store) : Obj :=
  list_to_map
    (map (λ c, (c_name c, default_value t now s (c_default c))) (schema t)).

(** No NOT NULL column is given null by [o]. *)
Definition not_null_ok (t : Table) (o : Obj) : bool :=
  forallb (λ c, implb (c_notnull c) (bool_decide (o !! c_name c ≠ Some JNull)))
          (schema t).

(** Every reference given by [o] points at an existing row. *)
Definition fk_ok (t : Table) (o : Obj) (s : Store) : bool :=
  forallb (λ c,
             match c_ref c, o !! c_name c with
             | Some (rt, _), Some v =>
                 bool_decide (v = JNull) ||
                 bool_decide (is_Some (find_id rt s v))
             | _, _ => true
             end)
          (schema t).

Definition ids (l : list Obj) : list (option JsVal) := (λ r : Obj, r !! "id") <$> l.

(** *** Executing a request *)

(** The row an insert stores: the payload over the column defaults. *)
Definition inserted_row (t : Table) (payload : Obj) (now : Z) (s : Store) : Obj :=
  payload ∪ defaults t now s.

Definition run_insert (t : Table) (payload : Obj) (now : Z) (s : Store)
  : Response (list Obj) * Store * Store :=
  if negb (well_typed t payload) then (Error invalid_request, s, s) else
  let s0 := if decide (is_Some (payload !! "id")) then s else bump t s in
  let row := inserted_row t payload now s in
  if negb (not_null_ok t row) then (Error not_null_violation, s0, s0) else
  if bool_decide (row !! "id" ∈ ids (rows t s)) then (Error unique_violation, s0, s0) else
  if negb (fk_ok t row s) then (Error foreign_key_violation, s0, s0) else
  (Data [row], set_rows t (rows t s ++ [row]) s0, s0).

(** The table after an update: the matching rows take the new values. *)
Definition updated (fs : list Filter) (changes : Obj) (l : list Obj) : list Obj :=
  (λ r, if decide (matches fs r) then changes ∪ r else r) <$> l.

Definition run_update (t : Table) (fs : list Filter) (changes : Obj) (s : Store)
  : Response (list Obj) * Store * Store :=
  if negb (well_typed t changes) then (Error invalid_request, s, s) else
  let hit := filter (matches fs) (rows t s) in
  let rows' := updated fs changes (rows t s) in
  match hit with
  | [] => (Data [], s, s)
  | _ =>
      if negb (not_null_ok t changes) then (Error not_null_violation, s, s) else
      if bool_decide (is_Some (changes !! "id")) && negb (bool_decide (NoDup (ids rows')))
      then (Error unique_violation, s, s) else
      if negb (fk_ok t changes s) then (Error foreign_key_violation, s, s) else
      (Data ((λ r, changes ∪ r) <$> hit), set_rows t rows' s, s)
  end.

(** The rows of [t'] after the rows of [t] with ids [gone] are deleted:
    [on delete set null] clears the reference, [on delete cascade] removes
    the row.  Nothing references interactions or tasks, so one level is
    enough. *)
Definition after_delete (t : Table) (gone : list (option JsVal)) (t' : Table)
  (l : list Obj) : list Obj :=
  foldr (λ c l,
           match c_ref c with
           | Some (rt, act) =>
               if decide (rt = t) then
                 let dangling (r : Obj) :=
                   r !! c_name c ≠ Some JNull ∧ r !! c_name c ∈ gone in
                 match act with
                 | SetNull =>
                     (λ r, if decide (dangling r) then <[c_name c := JNull]> r else r) <$> l
                 | Cascade => filter (λ r, ¬ dangling r) l
                 end
               else l
           | None => l
           end) l (schema t').

Definition run_delete (t : Table) (fs : list Filter) (s : Store)
  : Response (list Obj) * Store * Store :=
  let hit := filter (matches fs) (rows t s) in
  let s1 := set_rows t (filter (λ r, ¬ matches fs r) (rows t s)) s in
  let s2 := foldr (λ t' acc, set_rows t' (after_delete t (ids hit) t' (rows t' acc)) acc)
                  s1 [crm_stages; crm_contacts; crm_interactions; crm_tasks] in
  (Data hit, s2, s).

(** [exec q now s]: the response to [q] and the store afterwards.  [now] is
    the server's clock.  A failed request leaves the tables as they were. *)
Definition exec (q : Query) (now : Z) (s : Store) : Response (list Obj) * Store :=
  let '(r, s', s0) :=
    match q_verb q with
    | Select =>
        (Data (window q (ordered q (filter (matches (q_filters q)) (rows (q_from q) s)))), s, s)
    | Insert payload => run_insert (q_from q) payload now s
    | Update changes => run_update (q_from q) (q_filters q) changes s
    | Delete => run_delete (q_from q) (q_filters q) s
    end in
  match r with
  | Error e => (Error e, s0)
  | Data l =>
      let out := if q_returning q then present q s' <$> l else [] in
      if q_single q then
        match out with
        | [x] => (Data [x], s')
        | _ => (Error no_single_row, s0)
        end
      else (Data out, s')
  end.

End Pg.
Export Pg.

(** ** The query builder

    [from t |> Q.select ... |> Q.eq ... ] mirrors the method chains of
    db.js. *)

Module Q.

Definition from (t : Table) : Query :=
  {| q_from := t; q_verb := Select; q_filters := []; q_returning := false;
     q_columns := None; q_embed := None; q_order := None; q_limit := None;
     q_offset := None; q_single := false |}.

Definition select (cols : option (list string)) (e : option Embed) (q : Query) : Query :=
  {| q_from := q_from q; q_verb := q_verb q; q_filters := q_filters q;
     q_returning := true; q_columns := cols; q_embed := e;
     q_order := q_order q; q_limit := q_limit q; q_offset := q_offset q;
     q_single := q_single q |}.

Definition with_verb (v : Verb) (q : Query) : Query :=
  {| q_from := q_from q; q_verb := v; q_filters := q_filters q;
     q_returning := q_returning q; q_columns := q_columns q;
     q_embed := q_embed q; q_order := q_order q; q_limit := q_limit q;
     q_offset := q_offset q; q_single := q_single q |}.

Definition insert (o : Obj) : Query → Query := with_verb (Insert o).
Definition update (o : Obj) : Query → Query := with_verb (Update o).
Definition delete : Query → Query := with_verb Delete.

Definition where_ (f : Filter) (q : Query) : Query :=
  {| q_from := q_from q; q_verb := q_verb q; q_filters := q_filters q ++ [f];
     q_returning := q_returning q; q_columns := q_columns q;
     q_embed := q_embed q; q_order := q_order q; q_limit := q_limit q;
     q_offset := q_offset q; q_single := q_single q |}.

Definition eq (c : string) (v : JsVal) : Query → Query := where_ (Eq c v).
Definition overlaps (c : string) (vs : list string) : Query → Query :=
  where_ (Overlaps c vs).

Definition order (c : string) (ascending : bool) (q : Query) : Query :=
  {| q_from := q_from q; q_verb := q_verb q; q_filters := q_filters q;
     q_returning := q_returning q; q_columns := q_columns q;
     q_embed := q_embed q; q_order := Some (c, ascending);
     q_limit := q_limit q; q_offset := q_offset q; q_single := q_single q |}.

Definition limit (n : Z) (q : Query) : Query :=
  {| q_from := q_from q; q_verb := q_verb q; q_filters := q_filters q;
     q_returning := q_returning q; q_columns := q_columns q;
     q_embed := q_embed q; q_order := q_order q; q_limit := Some n;
     q_offset := q_offset q; q_single := q_single q |}.

(** [range(from, to)] sets both the offset and the limit parameter. *)
Definition range (a b : Z) (q : Query) : Query :=
  {| q_from := q_from q; q_verb := q_verb q; q_filters := q_filters q;
     q_returning := q_returning q; q_columns := q_columns q;
     q_embed := q_embed q; q_order := q_order q; q_limit := Some (b - a + 1);
     q_offset := Some a; q_single := q_single q |}.

Definition single (q : Query) : Query :=
  {| q_from := q_from q; q_verb := q_verb q; q_filters := q_filters q;
     q_returning := q_returning q; q_columns := q_columns q;
     q_embed := q_embed q; q_order := q_order q; q_limit := q_limit q;
     q_offset := q_offset q; q_single := true |}.

(** The select lists used by db.js. *)
Definition star : option (list string) := None.
Definition with_stage : option Embed :=
  Some {| e_table := crm_stages; e_via := "stage_id"; e_cols := ["name"; "color"] |}.
Definition with_contact : option Embed :=
  Some {| e_table := crm_contacts; e_via := "contact_id";
          e_cols := ["name"; "email"; "company"] |}.

End Q.

Notation "q |> f" := (f q) (at level 68, left associativity, only parsing).

(** ** Effects: the store, the request log and the clocks *)

Module Eff.

(** Each clock read, by the caller ([new Date()]) or by the server
    ([now()]), consumes one tick; the two clocks are independent. *)
Record World := {
  store : Store;
  log : list Query;          (* the requests sent so far, oldest first *)
  client_clock : nat → Z;
  server_clock : nat → Z;
  tick : nat
}.

Inductive Exception :=
| JsError (message : string)   (* throw new Error(message) *)
| PgFailure (e : PgError)      (* throw error, as returned by the store *).

Inductive Outcome (A : Type) :=
| Return (a : A)
| Throw (e : Exception).
Arguments Return {A} a.
Arguments Throw {A} e.

Definition M (A : Type) : Type := World → Outcome A * World.

#[global] Instance M_ret : MRet M := λ A a w, (Return a, w).

#[global] Instance M_bind : MBind M := λ A B f m w,
  match m w with
  | (Return a, w') => f a w'
  | (Throw e, w') => (Throw e, w')
  end.

Definition throw {A} (e : Exception) : M A := λ w, (Throw e, w).

(** One clock tick passes; the store becomes [s] and [sent] joins the log. *)
Definition step (s : Store) (sent : list Query) (w : World) : World :=
  {| store := s; log := log w ++ sent; client_clock := client_clock w;
     server_clock := server_clock w; tick := S (tick w) |}.

(** [new Date().toISOString()] *)
Definition new_Date : M JsVal := λ w,
  (Return (JDate (client_clock w (tick w))), step (store w) [] w).

(** [await query]: the request is sent, logged and answered. *)
Definition await (q : Query) : M (Response (list Obj)) := λ w,
  let r := exec q (server_clock w (tick w)) (store w) in
  (Return r.1, step r.2 [q] w).

(** [await query.single()] *)
Definition await_single (q : Query) : M (Response Obj) :=
  r ← await (Q.single q);
  mret (match r with
        | Data [x] => Data x
        | Data _ => Error no_single_row
        | Error e => Error e
        end).

(** [if (error) throw error; return data;] *)
Definition data_or_throw {A} (r : Response A) : M A :=
  match r with
  | Data a => mret a
  | Error e => throw (PgFailure e)
  end.

(** [for (const x of l) { await body(x); }] *)
Fixpoint for_each {A B} (l : list A) (body : A → M B) : M unit :=
  match l with
  | [] => mret tt
  | x :: l' => _ ← body x; for_each l' body
  end.

(** [for (const x of l) { out.push(await body(x)); }] *)
Fixpoint collect {A B} (l : list A) (body : A → M B) : M (list B) :=
  match l with
  | [] => mret []
  | x :: l' => y ← body x; ys ← collect l' body; mret (y :: ys)
  end.

End Eff.
Export Eff.

(** ** db.js: class SupabaseDB *)

Module DB.

Record Bucket := {
  b_id : option JsVal;
  b_name : option JsVal;
  b_color : option JsVal;
  b_position : option JsVal;
  b_count : nat;
  b_value : Z
}.

Record PipelineStats := {
  stages : list Bucket;
  totalContacts : nat;
  totalValue : Z
}.

(** *** Connecting *)

(** [process.env], as far as the module reads it. *)
Record Env := {
  SUPABASE_URL : option string;
  SUPABASE_KEY : option string;
  CRM_AGENT_ID : option string
}.

(** [a || b] where [b] may be undefined. *)
Definition or_undefined (a b : option JsVal) : option JsVal :=
  if truthy a then a else b.

(** A [SupabaseDB] object: [this.client] and [this.agentId]. *)
Record Handle (Client : Type) := {
  h_client : Client;
  h_agentId : JsVal
}.
Arguments h_client {Client} _.
Arguments h_agentId {Client} _.

Section createDatabase.

Context {Client : Type}.

(** [createClient] of @supabase/supabase-js; it may throw. *)
Variable createClient : JsVal → JsVal → Exception + Client.

Definition createDatabase (config : Obj) (env : Env) : Exception + Handle Client :=
  let url := or_undefined (config !! "supabaseUrl") (JStr <$> SUPABASE_URL env) in
  let key := or_undefined (config !! "supabaseKey") (JStr <$> SUPABASE_KEY env) in
  if negb (truthy url) || negb (truthy key) then
    inl (JsError "SUPABASE_URL and SUPABASE_KEY are required")
  else
    (* both are defined here *)
    match createClient (default JNull url) (default JNull key) with
    | inl e => inl e
    | inr supabase =>
        let agentId :=
          or_else (or_undefined (config !! "agentId") (JStr <$> CRM_AGENT_ID env))
                  (JStr "default") in
        inr {| h_client := supabase; h_agentId := agentId |}
    end.

End createDatabase.

(** The [fieldMap] of [updateContact]. *)
Definition fieldMap : gmap string string :=
  list_to_map
    [ ("name", "name"); ("email", "email"); ("phone", "phone");
      ("company", "company"); ("role", "role"); ("stageId", "stage_id");
      ("source", "source"); ("sourceDetail", "source_detail");
      ("assignedTo", "assigned_to"); ("tags", "tags");
      ("customFields", "custom_fields"); ("dealValue", "deal_value");
      ("currency", "currency"); ("isActive", "is_active");
      ("lostReason", "lost_reason"); ("lastContactAt", "last_contact_at") ].

(** The [fieldMap] of [updateInteraction]. *)
Definition interactionFieldMap : gmap string string :=
  list_to_map
    [ ("type", "type"); ("subject", "subject"); ("content", "content");
      ("scheduledAt", "scheduled_at"); ("completedAt", "completed_at");
      ("metadata", "metadata") ].

(** The [fieldMap] of [updateTask]. *)
Definition taskFieldMap : gmap string string :=
  list_to_map
    [ ("title", "title"); ("description", "description"); ("dueAt", "due_at");
      ("assignedTo", "assigned_to"); ("priority", "priority");
      ("contactId", "contact_id") ].

(** [for (const [key, value] of Object.entries(updates))
       if (fieldMap[key]) updateData[fieldMap[key]] = value;] *)
Definition map_fields (fm : gmap string string) (updates : Obj) (updateData : Obj) : Obj :=
  foldr (λ kv acc,
           match fm !! kv.1 with
           | Some c => <[c := kv.2]> acc
           | None => acc
           end)
        updateData (map_to_list updates).

(** [if (v) q = f(v, q)] *)
Definition if_truthy (v : option JsVal) (f : JsVal → Query → Query) (q : Query) : Query :=
  match v with
  | Some x => if truthy v then f x q else q
  | None => q
  end.

(** [sum + (parseFloat(c.deal_value) || 0)] reduced from 0. *)
Definition sum_values (cs : list Obj) : Z :=
  foldl (λ sum c, sum + parseFloat_or_0 (c !! "deal_value")) 0 cs.

(** The in-memory part of [getPipelineStats]: from the stages and the active
    contacts to the report. *)
Definition summarize (stages contacts : list Obj) : PipelineStats :=
  let pipeline :=
    (λ stage : Obj,
       let stageContacts :=
         filter (λ c : Obj, strict_eq (c !! "stage_id") (stage !! "id") = true) contacts in
       let totalValue := sum_values stageContacts in
       {| b_id := stage !! "id";
          b_name := stage !! "name";
          b_color := stage !! "color";
          b_position := stage !! "position";
          b_count := length stageContacts;
          b_value := totalValue |}) <$> stages in
  (* Add unstaged contacts *)
  let unstagedContacts := filter (λ c : Obj, truthy (c !! "stage_id") = false) contacts in
  let pipeline :=
    if decide (0 < length unstagedContacts)%nat then
      (* pipeline.unshift(...) *)
      {| b_id := Some JNull;
         b_name := Some (JStr "Unstaged");
         b_color := Some (JStr "#888888");
         b_position := Some (JNum 0);
         b_count := length unstagedContacts;
         b_value := sum_values unstagedContacts |} :: pipeline
    else pipeline in
  {| stages := pipeline;
     totalContacts := length contacts;
     totalValue := sum_values contacts |}.

Section SupabaseDB.

Variable agentId : string.   (* this.agentId *)

Definition deleted : Obj := {[ "deleted" := JBool true ]}.

(** *** Stages *)

Definition listStages : M (list Obj) :=
  r ← await (Q.from crm_stages
             |> Q.select Q.star None
             |> Q.eq "agent_id" (JStr agentId)
             |> Q.order "position" true);
  data_or_throw r.

Definition createStage (stage : Obj) : M Obj :=
  r ← await_single (Q.from crm_stages
                    |> Q.insert (literal
                         [ ("agent_id", Some (JStr agentId));
                           ("name", stage !! "name");
                           ("position", stage !! "position");
                           ("color", Some (or_else (stage !! "color") JNull)) ])
                    |> Q.select Q.star None);
  data_or_throw r.

Definition updateStage (id : JsVal) (updates : Obj) : M Obj :=
  r ← await_single (Q.from crm_stages
                    |> Q.update updates
                    |> Q.eq "id" id
                    |> Q.eq "agent_id" (JStr agentId)
                    |> Q.select Q.star None);
  data_or_throw r.

Definition deleteStage (id : JsVal) : M Obj :=
  r ← await (Q.from crm_stages
             |> Q.delete
             |> Q.eq "id" id
             |> Q.eq "agent_id" (JStr agentId));
  _ ← data_or_throw r;
  mret deleted.

Definition reorderStages (stageIds : list JsVal) : M (list Obj) :=
  let updates := imap (λ index id, (id, JNum (Z.of_nat index + 1))) stageIds in
  _ ← for_each updates (λ u, updateStage u.1 {[ "position" := u.2 ]});
  listStages.

(** *** Contacts *)

Definition listContacts (options : Obj) : M (list Obj) :=
  let query := Q.from crm_contacts
               |> Q.select Q.star Q.with_stage
               |> Q.eq "agent_id" (JStr agentId) in
  let query := if_truthy (options !! "stageId") (Q.eq "stage_id") query in
  let query := match options !! "isActive" with
               | Some v => query |> Q.eq "is_active" v
               | None => query
               end in
  let query := if_truthy (options !! "assignedTo") (Q.eq "assigned_to") query in
  let query := match options !! "tags" with
               | Some (JArr (t :: ts)) => query |> Q.overlaps "tags" (t :: ts)
               | _ => query
               end in
  let query := query |> Q.order "updated_at" false in
  let query := match options !! "limit" with
               | Some (JNum n) => if n =? 0 then query else query |> Q.limit n
               | _ => query
               end in
  let query := match options !! "offset" with
               | Some (JNum o) =>
                   if o =? 0 then query
                   else query |> Q.range o
                          (o + parseFloat_or_0 (Some (or_else (options !! "limit") (JNum 20))) - 1)
               | _ => query
               end in
  r ← await query;
  data_or_throw r.

Definition getContact (id : JsVal) : M Obj :=
  r ← await_single (Q.from crm_contacts
                    |> Q.select Q.star Q.with_stage
                    |> Q.eq "id" id
                    |> Q.eq "agent_id" (JStr agentId));
  data_or_throw r.

Definition createContact (contact : Obj) : M Obj :=
  entered ← (if truthy (contact !! "stageId") then new_Date else mret JNull);
  r ← await_single (Q.from crm_contacts
                    |> Q.insert (literal
                         [ ("agent_id", Some (JStr agentId));
                           ("name", contact !! "name");
                           ("email", Some (or_else (contact !! "email") JNull));
                           ("phone", Some (or_else (contact !! "phone") JNull));
                           ("company", Some (or_else (contact !! "company") JNull));
                           ("role", Some (or_else (contact !! "role") JNull));
                           ("stage_id", Some (or_else (contact !! "stageId") JNull));
                           ("stage_entered_at", Some entered);
                           ("source", Some (or_else (contact !! "source") JNull));
                           ("source_detail", Some (or_else (contact !! "sourceDetail") JNull));
                           ("assigned_to", Some (or_else (contact !! "assignedTo") JNull));
                           ("tags", Some (or_else (contact !! "tags") (JArr [])));
                           ("custom_fields", Some (or_else (contact !! "customFields") (JObj [])));
                           ("deal_value", Some (or_else (contact !! "dealValue") JNull));
                           ("currency", Some (or_else (contact !! "currency") (JStr "AUD")));
                           ("is_active",
                            Some (JBool (negb (strict_eq (contact !! "isActive")
                                                         (Some (JBool false)))))) ])
                    |> Q.select Q.star Q.with_stage);
  data_or_throw r.

Definition updateContact (id : JsVal) (updates : Obj) : M Obj :=
  now ← new_Date;
  let updateData := map_fields fieldMap updates {[ "updated_at" := now ]} in
  r ← await_single (Q.from crm_contacts
                    |> Q.update updateData
                    |> Q.eq "id" id
                    |> Q.eq "agent_id" (JStr agentId)
                    |> Q.select Q.star Q.with_stage);
  data_or_throw r.

Definition moveContactStage (id stageId : JsVal) : M Obj :=
  entered ← new_Date;
  updated ← new_Date;
  r ← await_single (Q.from crm_contacts
                    |> Q.update (literal
                         [ ("stage_id", Some stageId);
                           ("stage_entered_at", Some entered);
                           ("updated_at", Some updated) ])
                    |> Q.eq "id" id
                    |> Q.eq "agent_id" (JStr agentId)
                    |> Q.select Q.star Q.with_stage);
  data_or_throw r.

Definition deleteContact (id : JsVal) : M Obj :=
  r ← await (Q.from crm_contacts
             |> Q.delete
             |> Q.eq "id" id
             |> Q.eq "agent_id" (JStr agentId));
  _ ← data_or_throw r;
  mret deleted.

(** *** Interactions *)

Definition listInteractions (options : Obj) : M (list Obj) :=
  let query := Q.from crm_interactions
               |> Q.select Q.star Q.with_contact
               |> Q.eq "agent_id" (JStr agentId) in
  let query := if_truthy (options !! "contactId") (Q.eq "contact_id") query in
  let query := if_truthy (options !! "type") (Q.eq "type") query in
  let query := query |> Q.order "created_at" false in
  let query := match options !! "limit" with
               | Some (JNum n) => if n =? 0 then query else query |> Q.limit n
               | _ => query
               end in
  r ← await query;
  data_or_throw r.

(** The first statement of [addInteraction]: the insert and its
    [if (error) throw error]. *)
Definition insertInteraction (interaction : Obj) : M Obj :=
  r ← await_single (Q.from crm_interactions
                    |> Q.insert (literal
                         [ ("agent_id", Some (JStr agentId));
                           ("contact_id", interaction !! "contactId");
                           ("type", interaction !! "type");
                           ("subject", Some (or_else (interaction !! "subject") JNull));
                           ("content", Some (or_else (interaction !! "content") JNull));
                           ("created_by", interaction !! "createdBy");
                           ("created_by_type",
                            Some (or_else (interaction !! "createdByType") (JStr "agent")));
                           ("scheduled_at", Some (or_else (interaction !! "scheduledAt") JNull));
                           ("completed_at", Some (or_else (interaction !! "completedAt") JNull));
                           ("metadata", Some (or_else (interaction !! "metadata") (JObj []))) ])
                    |> Q.select Q.star Q.with_contact);
  data_or_throw r.

Definition addInteraction (interaction : Obj) : M Obj :=
  data ← insertInteraction interaction;
  (* Update contact's last_contact_at *)
  now ← new_Date;
  _ ← updateContact (default JNull (interaction !! "contactId"))
                    {[ "lastContactAt" := now ]};
  mret data.

Definition updateInteraction (id : JsVal) (updates : Obj) : M Obj :=
  let updateData := map_fields interactionFieldMap updates ∅ in
  r ← await_single (Q.from crm_interactions
                    |> Q.update updateData
                    |> Q.eq "id" id
                    |> Q.eq "agent_id" (JStr agentId)
                    |> Q.select Q.star Q.with_contact);
  data_or_throw r.

Definition deleteInteraction (id : JsVal) : M Obj :=
  r ← await (Q.from crm_interactions
             |> Q.delete
             |> Q.eq "id" id
             |> Q.eq "agent_id" (JStr agentId));
  _ ← data_or_throw r;
  mret deleted.

(** *** Tasks *)

Definition addTask (task : Obj) : M Obj :=
  r ← await_single (Q.from crm_tasks
                    |> Q.insert (literal
                         [ ("agent_id", Some (JStr agentId));
                           ("contact_id", Some (or_else (task !! "contactId") JNull));
                           ("title", task !! "title");
                           ("description", Some (or_else (task !! "description") JNull));
                           ("due_at", Some (or_else (task !! "dueAt") JNull));
                           ("assigned_to", Some (or_else (task !! "assignedTo") JNull));
                           ("priority", Some (or_else (task !! "priority") (JStr "medium"))) ])
                    |> Q.select Q.star Q.with_contact);
  data_or_throw r.

Definition completeTask (id : JsVal) : M Obj :=
  now ← new_Date;
  r ← await_single (Q.from crm_tasks
                    |> Q.update (literal
                         [ ("completed", Some (JBool true));
                           ("completed_at", Some now) ])
                    |> Q.eq "id" id
                    |> Q.eq "agent_id" (JStr agentId)
                    |> Q.select Q.star Q.with_contact);
  data_or_throw r.

Definition uncompleteTask (id : JsVal) : M Obj :=
  r ← await_single (Q.from crm_tasks
                    |> Q.update (literal
                         [ ("completed", Some (JBool false));
                           ("completed_at", Some JNull) ])
                    |> Q.eq "id" id
                    |> Q.eq "agent_id" (JStr agentId)
                    |> Q.select Q.star Q.with_contact);
  data_or_throw r.

Definition updateTask (id : JsVal) (updates : Obj) : M Obj :=
  let updateData := map_fields taskFieldMap updates ∅ in
  r ← await_single (Q.from crm_tasks
                    |> Q.update updateData
                    |> Q.eq "id" id
                    |> Q.eq "agent_id" (JStr agentId)
                    |> Q.select Q.star Q.with_contact);
  data_or_throw r.

Definition deleteTask (id : JsVal) : M Obj :=
  r ← await (Q.from crm_tasks
             |> Q.delete
             |> Q.eq "id" id
             |> Q.eq "agent_id" (JStr agentId));
  _ ← data_or_throw r;
  mret deleted.

(** *** Stats *)

Definition getPipelineStats : M PipelineStats :=
  (* Get stages with contact counts *)
  stages ← listStages;
  r ← await (Q.from crm_contacts
             |> Q.select (Some ["stage_id"; "deal_value"; "is_active"]) None
             |> Q.eq "agent_id" (JStr agentId)
             |> Q.eq "is_active" (JBool true));
  contacts ← data_or_throw r;
  mret (summarize stages contacts).

End SupabaseDB.

End DB.

(** ** crm.js: class CRM *)

Module CRM.

Record InitResult := {
  status : string;
  stages : list Obj
}.

(** A [CRM] object: [this.db] and [this.agentId]. *)
Record Crm (Client : Type) := {
  this_db : DB.Handle Client;
  this_agentId : JsVal
}.
Arguments this_db {Client} _.
Arguments this_agentId {Client} _.

(** [new CRM(config)] *)
Definition new {Client} (createClient : JsVal → JsVal → Exception + Client)
    (config : Obj) (env : DB.Env) : Exception + Crm Client :=
  match DB.createDatabase createClient config env with
  | inl e => inl e
  | inr d =>
      inr {| this_db := d;
             this_agentId :=
               or_else (DB.or_undefined (config !! "agentId")
                          (JStr <$> DB.CRM_AGENT_ID env))
                       (JStr "default") |}
  end.

Definition defaultStages : list Obj :=
  [ literal [ ("name", Some (JStr "Lead")); ("position", Some (JNum 1));
              ("color", Some (JStr "#6366f1")) ];
    literal [ ("name", Some (JStr "Contacted")); ("position", Some (JNum 2));
              ("color", Some (JStr "#8b5cf6")) ];
    literal [ ("name", Some (JStr "Qualified")); ("position", Some (JNum 3));
              ("color", Some (JStr "#a855f7")) ];
    literal [ ("name", Some (JStr "Proposal")); ("position", Some (JNum 4));
              ("color", Some (JStr "#d946ef")) ];
    literal [ ("name", Some (JStr "Negotiation")); ("position", Some (JNum 5));
              ("color", Some (JStr "#ec4899")) ];
    literal [ ("name", Some (JStr "Won")); ("position", Some (JNum 6));
              ("color", Some (JStr "#22c55e")) ] ].

Section CRM.

Variable agentId : string.   (* the agent the CRM object was built for *)

(** *** Stages *)

Definition listStages : M (list Obj) := DB.listStages agentId.

(** The caller's [stage] object is assigned its position in place; the
    model passes the completed object on. *)
Definition createStage (stage : Obj) : M Obj :=
  if negb (truthy (stage !! "name")) then throw (JsError "Stage name is required")
  else
    (* Auto-assign position if not provided *)
    stage ← match stage !! "position" with
            | None =>
                existing ← DB.listStages agentId;
                mret (<["position" := JNum (Z.of_nat (length existing) + 1)]> stage)
            | Some _ => mret stage
            end;
    DB.createStage agentId stage.

Definition reorderStages (stageIds : list JsVal) : M (list Obj) :=
  DB.reorderStages agentId stageIds.

Definition deleteStage (id : JsVal) : M Obj := DB.deleteStage agentId id.

(** *** Contacts *)

Definition listContacts (options : Obj) : M (list Obj) :=
  DB.listContacts agentId options.

Definition getContact (id : JsVal) : M Obj := DB.getContact agentId id.

Definition createContact (contact : Obj) : M Obj :=
  if negb (truthy (contact !! "name")) then throw (JsError "Contact name is required")
  else DB.createContact agentId contact.

Definition updateContact (id : JsVal) (updates : Obj) : M Obj :=
  DB.updateContact agentId id updates.

Definition moveStage (id stageId : JsVal) : M Obj :=
  DB.moveContactStage agentId id stageId.

Definition markLost (id reason : JsVal) : M Obj :=
  DB.updateContact agentId id
    (literal [ ("isActive", Some (JBool false)); ("lostReason", Some reason) ]).

Definition reactivate (id : JsVal) : M Obj :=
  DB.updateContact agentId id
    (literal [ ("isActive", Some (JBool true)); ("lostReason", Some JNull) ]).

Definition deleteContact (id : JsVal) : M Obj := DB.deleteContact agentId id.

(** *** Interactions *)

Definition listInteractions (options : Obj) : M (list Obj) :=
  DB.listInteractions agentId options.

Definition addInteraction (interaction : Obj) : M Obj :=
  if negb (truthy (interaction !! "contactId")) then
    throw (JsError "Contact ID is required")
  else if negb (truthy (interaction !! "type")) then
    throw (JsError "Interaction type is required")
  else if negb (truthy (interaction !! "createdBy")) then
    throw (JsError "Created by is required")
  else DB.addInteraction agentId interaction.

Definition addNote (contactId content createdBy : option JsVal) : M Obj :=
  addInteraction (literal [ ("contactId", contactId);
                            ("type", Some (JStr "note"));
                            ("content", content);
                            ("createdBy", createdBy) ]).

Definition updateInteraction (id : JsVal) (updates : Obj) : M Obj :=
  DB.updateInteraction agentId id updates.

Definition deleteInteraction (id : JsVal) : M Obj := DB.deleteInteraction agentId id.

(** *** Tasks *)

Definition addTask (task : Obj) : M Obj :=
  if negb (truthy (task !! "title")) then throw (JsError "Task title is required")
  else DB.addTask agentId task.

Definition completeTask (id : JsVal) : M Obj := DB.completeTask agentId id.

Definition uncompleteTask (id : JsVal) : M Obj := DB.uncompleteTask agentId id.

Definition updateTask (id : JsVal) (updates : Obj) : M Obj :=
  DB.updateTask agentId id updates.

Definition deleteTask (id : JsVal) : M Obj := DB.deleteTask agentId id.

(** *** Stats *)

Definition getPipelineStats : M DB.PipelineStats := DB.getPipelineStats agentId.

(** *** Utilities *)

Definition initializeDefaultStages : M InitResult :=
  existing ← listStages;
  if decide (0 < length existing)%nat then
    mret {| status := "already_initialized"; stages := existing |}
  else
    created ← collect defaultStages createStage;
    mret {| status := "initialized"; stages := created |}.

End CRM.

End CRM.

(** ** cli.js: reading the command line *)

Module CLI.

(** The value of an option: the argument after it, or [true]. *)
Inductive OptVal :=
| Given (value : string)
| Flag.

(** [s.startsWith('--')] *)
Definition dashed (s : string) : bool := String.prefix "--" s.

(** [s.slice(2)] *)
Definition slice2 (s : string) : string :=
  match s with
  | String _ (String _ rest) => rest
  | _ => ""
  end.

(** [opts[key] = value] on an object literal: assigning a string or [true]
    to ["__proto__"] leaves the object as it is. *)
Definition assign (key : string) (value : OptVal) (opts : gmap string OptVal)
  : gmap string OptVal :=
  if decide (key = "__proto__") then opts else <[key := value]> opts.

(** The loop of [parseArgs] from index [i] on, [args] being what is left
    from there. *)
Fixpoint parse (args : list string) (opts : gmap string OptVal) (positional : list string)
  : gmap string OptVal * list string :=
  match args with
  | [] => (opts, positional)
  | arg :: rest =>
      if dashed arg then
        let key := slice2 arg in
        match rest with
        | next :: rest' =>
            if negb (String.eqb next "") && negb (dashed next)
            then parse rest' (assign key (Given next) opts) positional
            else parse rest (assign key Flag opts) positional
        | [] => parse rest (assign key Flag opts) positional
        end
      else parse rest opts (positional ++ [arg])
  end.

Definition parseArgs (args : list string) : gmap string OptVal * list string :=
  parse args ∅ [].

End CLI.

(** ** Vocabulary of the statements *)

(** The row with primary key [id] that belongs to [agentId]. *)
Definition owned (agentId : string) (id : JsVal) (r : Obj) : Prop :=
  r !! "id" = Some id ∧ r !! "agent_id" = Some (JStr agentId).

#[global] Instance owned_dec a id r : Decision (owned a id r).
Proof. unfold owned. apply _. Defined.

(** [.eq('id', id).eq('agent_id', this.agentId)] *)
Definition by_key (agentId : string) (id : JsVal) : list Filter :=
  [Eq "id" id; Eq "agent_id" (JStr agentId)].

(** Rows of one agent. *)
Definition of_agent (agentId : string) (r : Obj) : Prop :=
  r !! "agent_id" = Some (JStr agentId).

#[global] Instance of_agent_dec a r : Decision (of_agent a r).
Proof. unfold of_agent. apply _. Defined.

(** The [updateData] of [updateContact]. *)
Definition contact_changes (updates : Obj) (now : JsVal) : Obj :=
  DB.map_fields DB.fieldMap updates {[ "updated_at" := now ]}.

Definition contact_update (agentId : string) (id : JsVal) (changes : Obj) : Query :=
  Q.single (Q.from crm_contacts |> Q.update changes |> Q.eq "id" id
            |> Q.eq "agent_id" (JStr agentId) |> Q.select Q.star Q.with_stage).

Definition rewritten (agentId : string) (id : JsVal) (changes : Obj) (l : list Obj) : list Obj :=
  (λ r, if decide (owned agentId id r) then changes ∪ r else r) <$> l.

(** [listContacts({})] *)
Definition all_contacts (agentId : string) : Query :=
  Q.from crm_contacts |> Q.select Q.star Q.with_stage
  |> Q.eq "agent_id" (JStr agentId) |> Q.order "updated_at" false.

Definition all_stages (agentId : string) : Query :=
  Q.from crm_stages |> Q.select Q.star None
  |> Q.eq "agent_id" (JStr agentId) |> Q.order "position" true.

Definition stages_of (agentId : string) (s : Store) : list Obj :=
  merge_sort (row_le "position" true) (filter (of_agent agentId) (stage_rows s)).

(** The sequence of [t] is ahead of every id in the table. *)
Definition sequence_ahead (t : Table) (s : Store) : Prop :=
  ∀ r n, r ∈ rows t s → r !! "id" = Some (JNum n) → n < serial t s.

(** A stage object with a name, a position and a color. *)
Definition seed_ok (stage : Obj) : Prop :=
  ∃ n p c, stage !! "name" = Some (JStr n) ∧ n ≠ "" ∧
           stage !! "position" = Some (JNum p) ∧
           stage !! "color" = Some (JStr c) ∧ c ≠ "".

(** [row] is the stage [agentId] stored for the seed [stage]. *)
Definition seeded (agentId : string) (stage row : Obj) : Prop :=
  of_agent agentId row ∧ row !! "name" = stage !! "name" ∧
  row !! "position" = stage !! "position" ∧ row !! "color" = stage !! "color".

(** What a stage row shows: name, position, color. *)
Definition label (r : Obj) : option JsVal * option JsVal * option JsVal :=
  (r !! "name", r !! "position", r !! "color").

(** The active contacts of an agent, and how getPipelineStats classifies
    them. *)
Definition active_of (agentId : string) (r : Obj) : Prop :=
  of_agent agentId r ∧ r !! "is_active" = Some (JBool true).

#[global] Instance active_of_dec a r : Decision (active_of a r).
Proof. unfold active_of. apply _. Defined.

Definition in_stage (stage c : Obj) : Prop :=
  strict_eq (c !! "stage_id") (stage !! "id") = true.

Definition unstaged (c : Obj) : Prop := truthy (c !! "stage_id") = false.

#[global] Instance in_stage_dec st c : Decision (in_stage st c).
Proof. unfold in_stage. apply _. Defined.

#[global] Instance unstaged_dec c : Decision (unstaged c).
Proof. unfold unstaged. apply _. Defined.



Definition stage_bucket (cs : list Obj) (stage : Obj) : DB.Bucket :=
  {| DB.b_id := stage !! "id"; DB.b_name := stage !! "name";
     DB.b_color := stage !! "color"; DB.b_position := stage !! "position";
     DB.b_count := length (filter (in_stage stage) cs);
     DB.b_value := DB.sum_values (filter (in_stage stage) cs) |}.

Definition unstaged_bucket (cs : list Obj) : DB.Bucket :=
  {| DB.b_id := Some JNull; DB.b_name := Some (JStr "Unstaged");
     DB.b_color := Some (JStr "#888888"); DB.b_position := Some (JNum 0);
     DB.b_count := length (filter unstaged cs);
     DB.b_value := DB.sum_values (filter unstaged cs) |}.




Definition pipeline (sts cs : list Obj) : list DB.Bucket :=
  (if decide (Exists unstaged cs) then [unstaged_bucket cs] else [])
  ++ (stage_bucket cs <$> sts).

(** The stage ids named by a reorder request. *)
Definition listed (stageIds : list JsVal) (r : Obj) : Prop :=
  r !! "id" ∈ (Some <$> stageIds).

#[global] Instance listed_dec ids r : Decision (listed ids r).
Proof. unfold listed. apply _. Defined.

(** The position a reorder request gives to its [i]-th id, counting from [k]. *)
Definition slot (k i : nat) : JsVal := JNum (Z.of_nat (k + i) + 1).

Definition reposition (agentId : string) (u : JsVal * JsVal) : M Obj :=
  DB.updateStage agentId u.1 {[ "position" := u.2 ]}.

(** The stage of [a] with primary key [id]. *)
Definition row_of (a : string) (rows : list Obj) (id : JsVal) : Obj :=
  default ∅ (head (filter (owned a id) rows)).

(** [select(...).eq('id', id).eq('agent_id', agentId).single()] *)
Definition by_id (t : Table) (agentId : string) (id : JsVal)
    (cols : option (list string)) (emb : option Embed) : Query :=
  Q.single (Q.from t |> Q.select cols emb |> Q.eq "id" id
            |> Q.eq "agent_id" (JStr agentId)).

(** The row [createContact] asks the store to insert. *)
Definition contact_payload (agentId : string) (contact : Obj) (entered : JsVal) : Obj :=
  literal
    [ ("agent_id", Some (JStr agentId));
      ("name", contact !! "name");
      ("email", Some (or_else (contact !! "email") JNull));
      ("phone", Some (or_else (contact !! "phone") JNull));
      ("company", Some (or_else (contact !! "company") JNull));
      ("role", Some (or_else (contact !! "role") JNull));
      ("stage_id", Some (or_else (contact !! "stageId") JNull));
      ("stage_entered_at", Some entered);
      ("source", Some (or_else (contact !! "source") JNull));
      ("source_detail", Some (or_else (contact !! "sourceDetail") JNull));
      ("assigned_to", Some (or_else (contact !! "assignedTo") JNull));
      ("tags", Some (or_else (contact !! "tags") (JArr [])));
      ("custom_fields", Some (or_else (contact !! "customFields") (JObj [])));
      ("deal_value", Some (or_else (contact !! "dealValue") JNull));
      ("currency", Some (or_else (contact !! "currency") (JStr "AUD")));
      ("is_active",
       Some (JBool (negb (strict_eq (contact !! "isActive") (Some (JBool false)))))) ].

Definition contact_insert (payload : Obj) : Query :=
  Q.single (Q.from crm_contacts |> Q.insert payload |> Q.select Q.star Q.with_stage).

(** The world in which [createContact] sends its request: one tick later
    when it read the clock for [stage_entered_at]. *)
Definition stamped (contact : Obj) (w : World) : World :=
  if truthy (contact !! "stageId") then step (store w) [] w else w.

Definition entered_at (contact : Obj) (w : World) : JsVal :=
  if truthy (contact !! "stageId") then JDate (client_clock w (tick w)) else JNull.

(** The filters that [listContacts] adds for its options. *)
Definition contact_filters (options : Obj) (query : Query) : Query :=
  let query := DB.if_truthy (options !! "stageId") (Q.eq "stage_id") query in
  let query := match options !! "isActive" with
               | Some v => query |> Q.eq "is_active" v
               | None => query
               end in
  let query := DB.if_truthy (options !! "assignedTo") (Q.eq "assigned_to") query in
  match options !! "tags" with
  | Some (JArr (t :: ts)) => query |> Q.overlaps "tags" (t :: ts)
  | _ => query
  end.

(** The window that [listContacts] sets for its options. *)
Definition paged (options : Obj) (query : Query) : Query :=
  let query := match options !! "limit" with
               | Some (JNum n) => if n =? 0 then query else query |> Q.limit n
               | _ => query
               end in
  match options !! "offset" with
  | Some (JNum o) =>
      if o =? 0 then query
      else query |> Q.range o
             (o + parseFloat_or_0 (Some (or_else (options !! "limit") (JNum 20))) - 1)
  | _ => query
  end.

(** The request of [listContacts(options)]. *)
Definition contacts_query (agentId : string) (options : Obj) : Query :=
  paged options
    (contact_filters options
       (Q.from crm_contacts |> Q.select Q.star Q.with_stage
        |> Q.eq "agent_id" (JStr agentId))
     |> Q.order "updated_at" false).

(** A select of whole contact rows, restricted to those of [agentId]. *)
Definition selects (agentId : string) (q : Query) : Prop :=
  q_from q = crm_contacts ∧ q_verb q = Select ∧ q_returning q = true ∧
  q_single q = false ∧ q_columns q = None ∧ q_embed q = Q.with_stage ∧
  ∃ fs, q_filters q = Eq "agent_id" (JStr agentId) :: fs.




(** The columns no [updateContact] request can name. *)
Definition fixed_columns : list string :=
  ["id"; "agent_id"; "created_at"; "stage_entered_at"].

(** The rows of a table and what an update by key makes of them: the
    others are kept, and the columns [fixed] are kept in every row. *)
Definition kept (agentId : string) (id : JsVal) (fixed : list string)
    (before after : list Obj) : Prop :=
  Forall2 (λ r r' : Obj,
             (¬ owned agentId id r → r' = r) ∧
             ∀ c, c ∈ fixed → r' !! c = r !! c) before after.



(** A row whose column [c] refers to one of the deleted ids. *)
Definition dangling (c : string) (gone : list (option JsVal)) (r : Obj) : Prop :=
  r !! c ≠ Some JNull ∧ r !! c ∈ gone.

#[global] Instance dangling_dec c gone r : Decision (dangling c gone r).
Proof. unfold dangling. apply _. Defined.

(** The row [createStage] asks the store to insert. *)
Definition stage_payload (agentId : string) (stage : Obj) : Obj :=
  literal [ ("agent_id", Some (JStr agentId));
            ("name", stage !! "name");
            ("position", stage !! "position");
            ("color", Some (or_else (stage !! "color") JNull)) ].

Definition stage_insert (payload : Obj) : Query :=
  Q.single (Q.from crm_stages |> Q.insert payload |> Q.select Q.star None).

(** The row [addTask] asks the store to insert. *)
Definition task_payload (agentId : string) (task : Obj) : Obj :=
  literal [ ("agent_id", Some (JStr agentId));
            ("contact_id", Some (or_else (task !! "contactId") JNull));
            ("title", task !! "title");
            ("description", Some (or_else (task !! "description") JNull));
            ("due_at", Some (or_else (task !! "dueAt") JNull));
            ("assigned_to", Some (or_else (task !! "assignedTo") JNull));
            ("priority", Some (or_else (task !! "priority") (JStr "medium"))) ].

Definition task_insert (payload : Obj) : Query :=
  Q.single (Q.from crm_tasks |> Q.insert payload |> Q.select Q.star Q.with_contact).

(** The row [addInteraction] asks the store to insert. *)
Definition interaction_payload (agentId : string) (interaction : Obj) : Obj :=
  literal
    [ ("agent_id", Some (JStr agentId));
      ("contact_id", interaction !! "contactId");
      ("type", interaction !! "type");
      ("subject", Some (or_else (interaction !! "subject") JNull));
      ("content", Some (or_else (interaction !! "content") JNull));
      ("created_by", interaction !! "createdBy");
      ("created_by_type", Some (or_else (interaction !! "createdByType") (JStr "agent")));
      ("scheduled_at", Some (or_else (interaction !! "scheduledAt") JNull));
      ("completed_at", Some (or_else (interaction !! "completedAt") JNull));
      ("metadata", Some (or_else (interaction !! "metadata") (JObj []))) ].

Definition interaction_insert (payload : Obj) : Query :=
  Q.single (Q.from crm_interactions |> Q.insert payload |> Q.select Q.star Q.with_contact).

(** The columns no [updateTask] request can name. *)
Definition fixed_task_columns : list string :=
  ["id"; "agent_id"; "completed"; "completed_at"; "created_at"].

(** The columns no [updateInteraction] request can name. *)
Definition fixed_interaction_columns : list string :=
  ["id"; "agent_id"; "contact_id"; "created_by"; "created_by_type"; "created_at"].

(** The request of [listInteractions(options)]. *)
Definition interactions_query (agentId : string) (options : Obj) : Query :=
  let query := Q.from crm_interactions
               |> Q.select Q.star Q.with_contact
               |> Q.eq "agent_id" (JStr agentId) in
  let query := DB.if_truthy (options !! "contactId") (Q.eq "contact_id") query in
  let query := DB.if_truthy (options !! "type") (Q.eq "type") query in
  let query := query |> Q.order "created_at" false in
  match options !! "limit" with
  | Some (JNum n) => if n =? 0 then query else query |> Q.limit n
  | _ => query
  end.


(** [config.agentId || process.env.CRM_AGENT_ID || 'default'] *)
Definition agent_of (config : Obj) (env : DB.Env) : JsVal :=
  or_else (DB.or_undefined (config !! "agentId") (JStr <$> DB.CRM_AGENT_ID env))
          (JStr "default").

(** [config.supabaseUrl || process.env.SUPABASE_URL] and the same for the key. *)
Definition url_of (config : Obj) (env : DB.Env) : option JsVal :=
  DB.or_undefined (config !! "supabaseUrl") (JStr <$> DB.SUPABASE_URL env).

Definition key_of (config : Obj) (env : DB.Env) : option JsVal :=
  DB.or_undefined (config !! "supabaseKey") (JStr <$> DB.SUPABASE_KEY env).

(** What [parse] adds to the options and the positional arguments it is
    given, reading [args]. *)
Record parsed (args : list string) (opts opts' : gmap string CLI.OptVal)
    (extra : list string) : Prop := {
  (* positional arguments: arguments without dashes, in order *)
  parsed_plain : Forall (λ a, CLI.dashed a = false) extra;
  parsed_order : extra `sublist_of` args;
  (* options given before stay, unless given again *)
  parsed_mono : ∀ k, is_Some (opts !! k) → is_Some (opts' !! k);
  (* every option comes from a dashed argument, and a value from the
     argument after it *)
  parsed_from : ∀ k v, opts' !! k = Some v →
    opts !! k = Some v ∨
    (k ≠ "__proto__" ∧ ∃ a, a ∈ args ∧ CLI.dashed a = true ∧ k = CLI.slice2 a ∧
       match v with
       | CLI.Given x => x ≠ "" ∧ CLI.dashed x = false ∧ x ∈ args
       | CLI.Flag => True
       end);
  (* every dashed argument sets its option *)
  parsed_all : ∀ a, a ∈ args → CLI.dashed a = true → CLI.slice2 a ≠ "__proto__" →
    is_Some (opts' !! CLI.slice2 a);
  (* without dashes everything is positional *)
  parsed_none : Forall (λ a, CLI.dashed a = false) args → opts' = opts ∧ extra = args
}.

(** What the store requires of an update and of an insert. *)
Definition update_ok (t : Table) (fs : list Filter) (changes : Obj) (s : Store) : Prop :=
  well_typed t changes = true ∧ not_null_ok t changes = true ∧
  (is_Some (changes !! "id") → NoDup (ids (updated fs changes (rows t s)))) ∧
  fk_ok t changes s = true.

Definition insert_ok (t : Table) (payload : Obj) (now : Z) (s : Store) : Prop :=
  well_typed t payload = true ∧
  not_null_ok t (inserted_row t payload now s) = true ∧
  ((inserted_row t payload now s !! "id") ∉ ids (rows t s)) ∧
  fk_ok t (inserted_row t payload now s) s = true.

Definition after_insert (t : Table) (payload : Obj) (now : Z) (s : Store) : Store :=
  let s0 := if decide (is_Some (payload !! "id")) then s else bump t s in
  set_rows t (rows t s ++ [inserted_row t payload now s]) s0.

(** The property [k] of an object literal. *)
Fixpoint assoc (k : string) (kvs : list (string * option JsVal)) : option JsVal :=
  match kvs with
  | [] => None
  | (k', v) :: rest =>
      if decide (k' = k) then match v with Some x => Some x | None => assoc k rest end
      else assoc k rest
  end.

(** A required field that is missing: [throw new Error('<label> is required')]. *)
Definition MissingField (label : string) : Exception :=
  JsError (label +:+ " is required").

(** ** Sample worlds *)

(** The world a computation leaves, and the value it returns. *)
Definition after {A} (m : M A) (w : World) : World := (m w).2.

Definition returned {A} (d : A) (r : Outcome A * World) : A :=
  match r.1 with Return a => a | Throw _ => d end.

Definition returns {A} (r : Outcome A * World) : bool :=
  match r.1 with Return _ => true | Throw _ => false end.

(** An empty database; both clocks advance by one per tick. *)
Definition fresh : World :=
  {| store := empty_store; log := [];
     client_clock := λ n, 1000 + Z.of_nat n;
     server_clock := λ n, 2000 + Z.of_nat n;
     tick := 0 |}.

(** An empty database whose clocks stand still. *)
Definition frozen : World :=
  {| store := empty_store; log := [];
     client_clock := λ _, 1000; server_clock := λ _, 1000; tick := 0 |}.

(** A contact of agent "acme" in stage 1, created while the clock reads 1000. *)
Definition frozen_pipeline : World :=
  after (CRM.createContact "acme"
           (literal [("name", Some (JStr "Eve")); ("stageId", Some (JNum 1))]))
    (after (CRM.initializeDefaultStages "acme") frozen).

(** The same on running clocks. *)
Definition acme_pipeline : World :=
  after (CRM.createContact "acme"
           (literal [("name", Some (JStr "Eve")); ("stageId", Some (JNum 1))]))
    (after (CRM.initializeDefaultStages "acme") fresh).


(** Two contacts of "acme", Eve (1) then Bob (2); their [updated_at] is the
    server's [now()], which runs ahead of the caller's clock. *)
Definition two_contacts : World :=
  after (CRM.createContact "acme" (literal [("name", Some (JStr "Bob"))]))
    (after (CRM.createContact "acme" (literal [("name", Some (JStr "Eve"))])) fresh).

(** A note on contact 1. *)
Definition note_1 : Obj :=
  literal [("contactId", Some (JNum 1)); ("type", Some (JStr "note"));
           ("content", Some (JStr "hello")); ("createdBy", Some (JStr "iris"))].


(** The six default stages of "acme", ids 1 to 6. *)
Definition acme_stages : World := after (CRM.initializeDefaultStages "acme") fresh.

(** A contact that names stage 1. *)
Definition mallory : Obj :=
  literal [("name", Some (JStr "Mallory")); ("stageId", Some (JNum 1));
           ("dealValue", Some (JNum 100))].

(** "globex" creates a contact in stage 1, which is a stage of "acme". *)
Definition crossed : World := after (CRM.createContact "globex" mallory) acme_stages.


(** A contact with a name and nothing else. *)
Definition eve : Obj := literal [("name", Some (JStr "Eve"))].


(** A client library that always connects. *)
Definition connects (url key : JsVal) : Exception + unit := inr tt.

Definition no_env : DB.Env :=
  {| DB.SUPABASE_URL := None; DB.SUPABASE_KEY := None; DB.CRM_AGENT_ID := None |}.


(** The active contacts only. *)
Definition active_only : Obj := literal [("isActive", Some (JBool true))].

(** ** Statements that do not hold as written *)

(** moveStage leaves a stage-entry timestamp strictly greater than the one
    before the call. *)
Definition moveStage_claim : Prop :=
  ∀ agentId id stageId w contact w' old t,
    CRM.moveStage agentId id stageId w = (Return contact, w') →
    filter (owned agentId id) (contact_rows (store w)) = [old] →
    old !! "stage_entered_at" = Some (JDate t) →
    contact !! "stage_id" = Some stageId ∧
    ∃ t', contact !! "stage_entered_at" = Some (JDate t') ∧ t < t'.

(** A successful addInteraction moves the parent contact to the front of
    the recency-ordered contact listing. *)
Definition addInteraction_front_claim : Prop :=
  ∀ agentId interaction w data w' l w'',
    CRM.addInteraction agentId interaction w = (Return data, w') →
    CRM.listContacts agentId ∅ w' = (Return l, w'') →
    ∃ first, head l = Some first ∧ first !! "id" = interaction !! "contactId".


(** After reorderStages the listed stages come back in the order of the
    list, at positions 1 to n, whatever the list. *)
Definition reorderStages_claim : Prop :=
  ∀ agentId stageIds w result w' l w'',
    CRM.reorderStages agentId stageIds w = (Return result, w') →
    CRM.listStages agentId w' = (Return l, w'') →
    (λ r : Obj, r !! "id") <$> filter (listed stageIds) l = Some <$> stageIds ∧
    (λ r : Obj, r !! "position") <$> filter (listed stageIds) l
    = (λ i : nat, Some (JNum (Z.of_nat i + 1))) <$> seq 0 (length stageIds).

(** * Properties *)

#[local] Arguments await_single : simpl never.
#[local] Arguments await : simpl never.
#[local] Arguments exec : simpl never.

(** ** Objects and tables *)
Lemma literal_lookup kvs k : literal kvs !! k = assoc k kvs.
Proof.
  unfold literal. induction kvs as [|[k' [v|]] rest IH]; simpl.
  - done.
  - destruct (decide (k' = k)) as [->|Hne].
    + by rewrite lookup_insert_eq.
    + by rewrite lookup_insert_ne.
  - destruct (decide (k' = k)); done.
Qed.

Lemma rows_bump t t' s : rows t (bump t' s) = rows t s.
Proof. by destruct t, t'. Qed.

Lemma rows_set_rows t l s : rows t (set_rows t l s) = l.
Proof. by destruct t. Qed.

Lemma rows_set_rows_ne t t' l s : t ≠ t' → rows t (set_rows t' l s) = rows t s.
Proof. by destruct t, t'. Qed.

(** ** The interpreter *)

Lemma exec_update_ok q changes now s r :
  q_verb q = Update changes → q_returning q = true → q_single q = true →
  update_ok (q_from q) (q_filters q) changes s →
  filter (matches (q_filters q)) (rows (q_from q) s) = [r] →
  let s' := set_rows (q_from q) (updated (q_filters q) changes (rows (q_from q) s)) s in
  exec q now s = (Data [present q s' (changes ∪ r)], s').
Proof.
  intros Hv Hr Hs (Hwt & Hnn & Hid & Hfk) Hhit. unfold exec.
  rewrite Hv, Hr, Hs. unfold run_update. rewrite Hwt, Hhit, Hnn, Hfk. simpl.
  fold (updated (q_filters q) changes (rows (q_from q) s)).
  destruct (bool_decide (is_Some (changes !! "id"))) eqn:Hb; simpl; [|done].
  apply bool_decide_eq_true in Hb. rewrite bool_decide_eq_true_2 by auto. done.
Qed.

Lemma exec_update_inv q changes now s l s' :
  q_verb q = Update changes → q_returning q = true → q_single q = true →
  exec q now s = (Data l, s') →
  ∃ r, filter (matches (q_filters q)) (rows (q_from q) s) = [r] ∧
       update_ok (q_from q) (q_filters q) changes s ∧
       s' = set_rows (q_from q) (updated (q_filters q) changes (rows (q_from q) s)) s ∧
       l = [present q s' (changes ∪ r)].
Proof.
  intros Hv Hr Hs. unfold exec. rewrite Hv, Hr, Hs. unfold run_update.
  fold (updated (q_filters q) changes (rows (q_from q) s)).
  destruct (well_typed _ _) eqn:Hwt; simpl; [|done].
  destruct (filter _ _) as [|r hit] eqn:Hhit; [done|].
  destruct (not_null_ok _ _) eqn:Hnn; simpl; [|done].
  destruct (_ && _) eqn:Hid; simpl; [done|].
  destruct (fk_ok _ _ _) eqn:Hfk; simpl; [|done].
  destruct hit; simpl; [|done]. intros [= <- <-].
  exists r. repeat split; try done.
  intros Hsome. apply andb_false_iff in Hid as [Hid|Hid].
  - apply bool_decide_eq_false in Hid. done.
  - apply negb_false_iff, bool_decide_eq_true in Hid. done.
Qed.

Lemma exec_update_fail q changes now s e s' :
  q_verb q = Update changes →
  exec q now s = (Error e, s') → s' = s.
Proof.
  intros Hv. unfold exec. rewrite Hv. unfold run_update.
  destruct (well_typed _ _); simpl; [|by intros [= <- <-]].
  destruct (filter _ _) as [|r hit]; simpl.
  { destruct (q_returning q), (q_single q); simpl; intros ?; by simplify_eq. }
  destruct (not_null_ok _ _); simpl; [|by intros [= <- <-]].
  destruct (_ && _); simpl; [by intros [= <- <-]|].
  destruct (fk_ok _ _ _); simpl; [|by intros [= <- <-]].
  destruct (q_returning q), (q_single q), hit; simpl; intros ?; by simplify_eq.
Qed.

Lemma exec_update_none q changes now s :
  q_verb q = Update changes → q_single q = true →
  filter (matches (q_filters q)) (rows (q_from q) s) = [] →
  ∃ e, exec q now s = (Error e, s).
Proof.
  intros Hv Hs Hhit. unfold exec. rewrite Hv, Hs. unfold run_update. rewrite Hhit.
  destruct (well_typed _ _); simpl; [|eauto].
  destruct (q_returning q); eauto.
Qed.

Lemma exec_insert_ok q payload now s :
  q_verb q = Insert payload → q_returning q = true →
  insert_ok (q_from q) payload now s →
  let s' := after_insert (q_from q) payload now s in
  exec q now s = (Data [present q s' (inserted_row (q_from q) payload now s)], s').
Proof.
  intros Hv Hr (Hwt & Hnn & Hid & Hfk). unfold exec. rewrite Hv, Hr.
  unfold run_insert. fold (inserted_row (q_from q) payload now s).
  rewrite Hwt, Hnn, Hfk. simpl. rewrite bool_decide_eq_false_2 by done.
  simpl. by destruct (q_single q).
Qed.

Lemma exec_insert_inv q payload now s l s' :
  q_verb q = Insert payload → q_returning q = true →
  exec q now s = (Data l, s') →
  insert_ok (q_from q) payload now s ∧
  s' = after_insert (q_from q) payload now s ∧
  l = [present q s' (inserted_row (q_from q) payload now s)].
Proof.
  intros Hv Hr. unfold exec. rewrite Hv, Hr.
  unfold run_insert. fold (inserted_row (q_from q) payload now s).
  destruct (well_typed _ _) eqn:Hwt; simpl; [|done].
  destruct (not_null_ok _ _) eqn:Hnn; simpl; [|done].
  destruct (bool_decide _) eqn:Hid; simpl; [done|].
  destruct (fk_ok _ _ _) eqn:Hfk; simpl; [|done].
  apply bool_decide_eq_false in Hid.
  destruct (q_single q); intros [= <- <-]; done.
Qed.


Lemma exec_select q now s :
  q_verb q = Select → q_returning q = true → q_single q = false →
  exec q now s =
    (Data (present q s <$> window q (ordered q (filter (matches (q_filters q)) (rows (q_from q) s)))), s).
Proof. intros Hv Hr Hs. unfold exec. by rewrite Hv, Hr, Hs. Qed.

(** ** Requests by primary key *)

Lemma matches_by_key a id r : matches (by_key a id) r ↔ id ≠ JNull ∧ owned a id r.
Proof.
  unfold matches, by_key, owned. rewrite !Forall_cons, Forall_nil. simpl.
  intuition congruence.
Qed.

Lemma filter_by_key a id (l : list Obj) :
  id ≠ JNull → filter (matches (by_key a id)) l = filter (owned a id) l.
Proof.
  intros Hid. apply list_filter_iff. intros r. rewrite matches_by_key. tauto.
Qed.

Lemma filter_by_key_null a (l : list Obj) : filter (matches (by_key a JNull)) l = [].
Proof.
  induction l as [|r l IH]; [done|]. rewrite filter_cons.
  destruct (decide _) as [H|_]; [|done]. apply matches_by_key in H. tauto.
Qed.

Lemma updated_by_key a id changes (l : list Obj) :
  id ≠ JNull →
  updated (by_key a id) changes l =
  (λ r, if decide (owned a id r) then changes ∪ r else r) <$> l.
Proof.
  intros Hid. unfold updated. apply list_fmap_ext. intros _ r _.
  destruct (decide (matches _ _)) as [H|H], (decide (owned _ _ _)) as [H'|H'];
    rewrite matches_by_key in H; tauto.
Qed.

(** Looking a stored column up in the returned representation. *)
Lemma present_lookup q s r k v :
  q_columns q = None → r !! k = Some v → present q s r !! k = Some v.
Proof.
  intros Hc Hk. unfold present. rewrite Hc. simpl.
  by apply lookup_union_Some_l.
Qed.

Lemma filter_owned_updated a id changes (l : list Obj) r :
  filter (owned a id) l = [r] →
  changes !! "id" = None → changes !! "agent_id" = None →
  filter (owned a id)
    ((λ r, if decide (owned a id r) then changes ∪ r else r) <$> l) = [changes ∪ r].
Proof.
  intros Hl Hi Ha.
  assert (∀ x : Obj, owned a id (changes ∪ x) ↔ owned a id x) as Hown.
  { intros x. unfold owned. by rewrite !lookup_union_r. }
  revert Hl. induction l as [|x l IH]; [done|].
  rewrite fmap_cons, !filter_cons.
  destruct (decide (owned a id x)) as [Hx|Hx].
  - intros [= -> Hl]. rewrite decide_True by by apply Hown. f_equal.
    clear IH. induction l as [|y l IH]; [done|].
    rewrite filter_cons in Hl. case_decide; [done|].
    rewrite fmap_cons, decide_False, filter_cons, decide_False by done. by apply IH.
  - intros Hl. rewrite decide_False by done. by apply IH.
Qed.

Lemma filter_owned_fresh a id (l : list Obj) :
  Some id ∉ ids l → filter (owned a id) l = [].
Proof.
  intros Hid. induction l as [|r l IH]; [done|].
  unfold ids in Hid. rewrite fmap_cons, not_elem_of_cons in Hid.
  destruct Hid as [Hr Hl]. rewrite filter_cons, decide_False; [by apply IH|].
  intros [? _]. congruence.
Qed.

Lemma list_filter_singleton_owned a id (l : list Obj) r :
  filter (owned a id) l = [r] → owned a id r ∧ r ∈ l.
Proof.
  intros H. assert (r ∈ filter (owned a id) l) as Hin by (rewrite H; left).
  apply list_elem_of_filter in Hin. tauto.
Qed.

Lemma rows_after_insert t payload now s :
  rows t (after_insert t payload now s) = rows t s ++ [inserted_row t payload now s].
Proof. unfold after_insert. apply rows_set_rows. Qed.


(** ** Running the monad *)

Lemma bind_run {A B} (m : M A) (f : A → M B) w :
  (m ≫= f) w = match m w with
               | (Return a, w') => f a w'
               | (Throw e, w') => (Throw e, w')
               end.
Proof. done. Qed.

Ltac run :=
  unfold mbind, M_bind, new_Date, await_single, await, mbind, M_bind, mret, M_ret,
    data_or_throw, throw; simpl.

Lemma await_single_update a id t changes cols emb w r :
  id ≠ JNull →
  filter (owned a id) (rows t (store w)) = [r] →
  update_ok t (by_key a id) changes (store w) →
  let q := Q.single (Q.from t |> Q.update changes |> Q.eq "id" id
                     |> Q.eq "agent_id" (JStr a) |> Q.select cols emb) in
  let s' := set_rows t ((λ r, if decide (owned a id r) then changes ∪ r else r)
                           <$> rows t (store w)) (store w) in
  await_single (Q.from t |> Q.update changes |> Q.eq "id" id
                |> Q.eq "agent_id" (JStr a) |> Q.select cols emb) w
  = (Return (Data (present q s' (changes ∪ r))), step s' [q] w).
Proof.
  intros Hid Hhit Hok q s'. run.
  rewrite (exec_update_ok _ changes _ _ r); try done.
  - simpl. fold (by_key a id). rewrite updated_by_key by done. done.
  - simpl. fold (by_key a id). by rewrite filter_by_key.
Qed.

Lemma await_single_update_inv a id t changes cols emb w x w' :
  await_single (Q.from t |> Q.update changes |> Q.eq "id" id
                |> Q.eq "agent_id" (JStr a) |> Q.select cols emb) w
  = (Return (Data x), w') →
  ∃ r, id ≠ JNull ∧ filter (owned a id) (rows t (store w)) = [r] ∧
       update_ok t (by_key a id) changes (store w).
Proof.
  run.
  match goal with |- context [exec ?q ?n ?s] =>
    destruct (exec q n s) as [[l|e] s'] eqn:E; [|done] end.
  eapply exec_update_inv in E; [|done..].
  destruct E as (old & Hhit & Hok & -> & ->). simpl in *. intros _.
  assert (id ≠ JNull) as Hid.
  { intros ->. fold (by_key a JNull) in Hhit. by rewrite filter_by_key_null in Hhit. }
  fold (by_key a id) in *. rewrite filter_by_key in Hhit by done. eauto.
Qed.

Lemma await_single_update_miss a id t changes cols emb w :
  filter (owned a id) (rows t (store w)) = [] →
  ∃ e, await_single (Q.from t |> Q.update changes |> Q.eq "id" id
                     |> Q.eq "agent_id" (JStr a) |> Q.select cols emb) w
       = (Return (Error e), step (store w) [Q.single (Q.from t |> Q.update changes |> Q.eq "id" id
                |> Q.eq "agent_id" (JStr a) |> Q.select cols emb)] w).
Proof.
  intros Hhit. run.
  match goal with |- context [exec ?q ?n ?s] =>
    destruct (exec_update_none q changes n s) as [e ->]; try done end.
  - simpl. fold (by_key a id). destruct (decide (id = JNull)) as [->|Hid].
    + apply filter_by_key_null.
    + by rewrite filter_by_key.
  - eauto.
Qed.

Lemma await_single_insert_inv t payload cols emb w x w' :
  await_single (Q.from t |> Q.insert payload |> Q.select cols emb) w
  = (Return (Data x), w') →
  let q := Q.single (Q.from t |> Q.insert payload |> Q.select cols emb) in
  let now := server_clock w (tick w) in
  let s' := after_insert t payload now (store w) in
  insert_ok t payload now (store w) ∧
  w' = step s' [q] w ∧
  x = present q s' (inserted_row t payload now (store w)).
Proof.
  unfold await_single. rewrite bind_run. unfold await; cbv beta iota zeta.
  match goal with |- context [exec ?q ?n ?s] =>
    destruct (exec q n s) as [[l|e] s'] eqn:E; [|by intros [=]] end.
  eapply exec_insert_inv in E; [|done..].
  destruct E as (Hok & -> & ->). simpl. by intros [= <- <-].
Qed.

Lemma await_single_insert t payload cols emb w :
  let q := Q.single (Q.from t |> Q.insert payload |> Q.select cols emb) in
  let now := server_clock w (tick w) in
  let s' := after_insert t payload now (store w) in
  insert_ok t payload now (store w) →
  await_single (Q.from t |> Q.insert payload |> Q.select cols emb) w
  = (Return (Data (present q s' (inserted_row t payload now (store w)))), step s' [q] w).
Proof.
  intros q now s' Hok.
  unfold await_single. rewrite bind_run. unfold await; cbv beta iota zeta.
  by rewrite (exec_insert_ok _ payload).
Qed.

(** ** Tasks *)




Lemma singleton_head {A} (d : A) (l : list A) :
  length l = 1%nat → l = [default d (head l)].
Proof. by destruct l as [|x [|y l]]. Qed.

Lemma returns_eq {A} (d : A) (m : M A) w :
  returns (m w) = true → m w = (Return (returned d (m w)), after m w).
Proof. unfold returns, returned, after. by destruct (m w) as [[a|e] w']. Qed.

(** ** Contacts *)

(** C4 (as amended).  A successful moveStage sends one request, an update of
    the agent's contact that carries the stage reference and the stage-entry
    timestamp together; the returned contact has the given stage and the
    caller's clock reading as its stage-entry timestamp, which is later than
    the previous one whenever that reading is. *)
Theorem moveStage_single_write agentId id stageId w contact w' :
  CRM.moveStage agentId id stageId w = (Return contact, w') →
  let entered := JDate (client_clock w (tick w)) in
  ∃ q changes old,
    log w' = log w ++ [q] ∧
    q_from q = crm_contacts ∧ q_verb q = Update changes ∧
    q_filters q = by_key agentId id ∧
    changes !! "stage_id" = Some stageId ∧
    changes !! "stage_entered_at" = Some entered ∧
    filter (owned agentId id) (contact_rows (store w)) = [old] ∧
    contact_rows (store w') =
      (λ r, if decide (owned agentId id r) then changes ∪ r else r)
        <$> contact_rows (store w) ∧
    contact !! "stage_id" = Some stageId ∧
    contact !! "stage_entered_at" = Some entered ∧
    (∀ t, old !! "stage_entered_at" = Some (JDate t) →
          t < client_clock w (tick w) →
          ∃ t', contact !! "stage_entered_at" = Some (JDate t') ∧ t < t').
Proof.
  unfold CRM.moveStage, DB.moveContactStage. run.
  match goal with |- context [exec ?q ?n ?s] =>
    destruct (exec q n s) as [[l|e] s'] eqn:E; [|done] end.
  eapply exec_update_inv in E; [|done..].
  destruct E as (old & Hhit & Hok & -> & ->). simpl in *.
  intros [= <- <-]. simpl.
  assert (id ≠ JNull) as Hid.
  { intros ->. fold (by_key agentId JNull) in Hhit. by rewrite filter_by_key_null in Hhit. }
  fold (by_key agentId id) in *. rewrite filter_by_key in Hhit by done.
  eexists _, _, old. split_and!; try done.
  - by rewrite !app_nil_r.
  - done.
  - done.
  - done.
  - by rewrite literal_lookup.
  - by rewrite literal_lookup.
  - by rewrite updated_by_key.
  - apply present_lookup; [done|]. apply lookup_union_Some_l. by rewrite literal_lookup.
  - apply present_lookup; [done|]. apply lookup_union_Some_l. by rewrite literal_lookup.
  - intros t _ Ht. eexists. split; [|exact Ht].
    apply present_lookup; [done|]. apply lookup_union_Some_l. by rewrite literal_lookup.
Qed.

Lemma moveStage_single_write_witness :
  CRM.moveStage "acme" (JNum 1) (JNum 2) acme_pipeline
  = (Return (returned ∅ (CRM.moveStage "acme" (JNum 1) (JNum 2) acme_pipeline)),
     after (CRM.moveStage "acme" (JNum 1) (JNum 2)) acme_pipeline) ∧
  ∃ q, log (after (CRM.moveStage "acme" (JNum 1) (JNum 2)) acme_pipeline)
       = log acme_pipeline ++ [q].
Proof.
  assert (returns (CRM.moveStage "acme" (JNum 1) (JNum 2) acme_pipeline) = true) as E
    by (vm_compute; reflexivity).
  apply (returns_eq ∅) in E.
  split; [exact E|].
  destruct (moveStage_single_write _ _ _ _ _ _ E) as (q & _ & _ & Hlog & _).
  exists q. exact Hlog.
Defined.

(** C4, as stated, fails when the clock has not advanced since the previous
    stamp: the new timestamp equals the old one. *)
Lemma moveStage_same_instant : ¬ moveStage_claim.
Proof.
  intros H.
  assert (returns (CRM.moveStage "acme" (JNum 1) (JNum 2) frozen_pipeline) = true) as E
    by (vm_compute; reflexivity).
  apply (returns_eq ∅) in E.
  specialize (H "acme" (JNum 1) (JNum 2) frozen_pipeline _ _
                (default ∅ (head (filter (owned "acme" (JNum 1))
                                         (contact_rows (store frozen_pipeline)))))
                1000 E).
  destruct H as (_ & t' & Ht' & Hlt).
  { apply singleton_head. vm_compute. reflexivity. }
  { vm_compute. reflexivity. }
  assert (returned ∅ (CRM.moveStage "acme" (JNum 1) (JNum 2) frozen_pipeline)
            !! "stage_entered_at" = Some (JDate 1000)) as Hs
    by (vm_compute; reflexivity).
  rewrite Hs in Ht'. injection Ht' as <-. lia.
Qed.



(** ** Interactions *)

(** C5.  When [contactId], [type] or [createdBy] is absent, addInteraction
    throws the error naming a missing field and leaves the world as it was:
    no request is sent, nothing is written. *)
Theorem addInteraction_missing_field agentId interaction w :
  interaction !! "contactId" = None ∨ interaction !! "type" = None ∨
  interaction !! "createdBy" = None →
  ∃ label,
    CRM.addInteraction agentId interaction w = (Throw (MissingField label), w) ∧
    ((label = "Contact ID" ∧ truthy (interaction !! "contactId") = false) ∨
     (label = "Interaction type" ∧ truthy (interaction !! "type") = false) ∨
     (label = "Created by" ∧ truthy (interaction !! "createdBy") = false)).
Proof.
  intros H. unfold CRM.addInteraction.
  destruct (truthy (interaction !! "contactId")) eqn:Hc; simpl.
  2:{ exists "Contact ID". split; [done|]. by left. }
  destruct (truthy (interaction !! "type")) eqn:Ht; simpl.
  2:{ exists "Interaction type". split; [done|]. right. by left. }
  destruct (truthy (interaction !! "createdBy")) eqn:Hb; simpl.
  2:{ exists "Created by". split; [done|]. right. by right. }
  destruct H as [H|[H|H]]; rewrite H in *; done.
Qed.

Lemma addInteraction_missing_field_witness :
  let interaction := literal [("contactId", Some (JNum 1)); ("type", Some (JStr "call"))] in
  interaction !! "createdBy" = None ∧
  ∃ label, CRM.addInteraction "acme" interaction fresh = (Throw (MissingField label), fresh).
Proof.
  intros interaction.
  assert (interaction !! "createdBy" = None) as H by reflexivity.
  split; [exact H|].
  destruct (addInteraction_missing_field "acme" interaction fresh
              (or_intror (or_intror H))) as (label & E & _).
  exists label. exact E.
Defined.


(** ** Tasks: completion round trip *)



(** ** Ordering *)

#[global] Instance key_le_total asc : Total (key_le asc).
Proof. intros [x|] [y|]; destruct asc; simpl; try tauto; lia. Qed.

#[global] Instance key_le_trans asc : Transitive (key_le asc).
Proof. intros [x|] [y|] [z|]; destruct asc; simpl; try done; lia. Qed.

#[global] Instance row_le_total c asc : Total (row_le c asc).
Proof. intros x y. apply key_le_total. Qed.

#[global] Instance row_le_trans c asc : Transitive (row_le c asc).
Proof. intros x y z. apply key_le_trans. Qed.

(** The first element of a sorted list is the one that nothing else may
    precede. *)
Lemma head_merge_sort `{EqDecision A} (R : relation A) `{∀ x y, Decision (R x y)}
    `{!Transitive R} `{!Total R} (l : list A) (x : A) :
  x ∈ l → (∀ y, y ∈ l → y ≠ x → ¬ R y x) →
  head (merge_sort R l) = Some x.
Proof.
  intros Hx Hmax.
  pose proof (merge_sort_Permutation R l) as Hp.
  pose proof (StronglySorted_merge_sort R l) as Hs.
  rewrite <- Hp in Hx.
  destruct (merge_sort R l) as [|h s]; [by apply elem_of_nil in Hx|].
  simpl. f_equal. destruct (decide (h = x)) as [|Hne]; [done|].
  apply elem_of_cons in Hx as [->|Hx]; [done|].
  apply StronglySorted_inv in Hs as [_ Hall].
  rewrite Forall_forall in Hall.
  destruct (Hmax h); [rewrite <- Hp; left|done|by apply Hall].
Qed.

(** ** updateContact and addInteraction *)

Lemma map_fields_other (fm : gmap string string) updates base c :
  (∀ k, fm !! k ≠ Some c) →
  DB.map_fields fm updates base !! c = base !! c.
Proof.
  intros Hc. unfold DB.map_fields.
  induction (map_to_list updates) as [|[k v] l IH]; [done|].
  simpl. destruct (fm !! k) as [c'|] eqn:Hk; [|done].
  rewrite lookup_insert_ne; [done|]. intros ->. by apply (Hc k).
Qed.

Lemma map_fields_unrecognized (fm : gmap string string) updates base :
  (∀ k, is_Some (updates !! k) → fm !! k = None) →
  DB.map_fields fm updates base = base.
Proof.
  intros Hu. unfold DB.map_fields.
  assert (∀ kv, kv ∈ map_to_list updates → fm !! kv.1 = None) as Hl.
  { intros [k v] Hkv. apply Hu. apply elem_of_map_to_list in Hkv. eauto. }
  induction (map_to_list updates) as [|[k v] l IH]; [done|].
  simpl. pose proof (Hl (k, v) ltac:(left)) as Hk. simpl in Hk. rewrite Hk.
  apply IH. intros kv Hkv. apply Hl. by right.
Qed.

Lemma fieldMap_range c :
  c = "updated_at" ∨ c = "id" ∨ c = "agent_id" → ∀ k, DB.fieldMap !! k ≠ Some c.
Proof.
  intros Hc k Hk.
  assert (map_Forall (λ _ v, v ≠ "updated_at" ∧ v ≠ "id" ∧ v ≠ "agent_id") DB.fieldMap) as H.
  { apply (bool_decide_unpack _). vm_compute. reflexivity. }
  apply H in Hk. destruct Hk as (?&?&?). destruct Hc as [ -> | [ -> | -> ] ]; done.
Qed.

Lemma contact_changes_lookup updates now c :
  c = "updated_at" ∨ c = "id" ∨ c = "agent_id" →
  contact_changes updates now !! c = ({[ "updated_at" := now ]} : Obj) !! c.
Proof. intros Hc. apply map_fields_other. by apply fieldMap_range. Qed.

Lemma updateContact_inv agentId id updates w c w' :
  DB.updateContact agentId id updates w = (Return c, w') →
  let changes := contact_changes updates (JDate (client_clock w (tick w))) in
  let s' := set_rows crm_contacts
              (rewritten agentId id changes (contact_rows (store w))) (store w) in
  ∃ old,
    id ≠ JNull ∧
    filter (owned agentId id) (contact_rows (store w)) = [old] ∧
    w' = step s' [contact_update agentId id changes] (step (store w) [] w) ∧
    c = present (contact_update agentId id changes) s' (changes ∪ old).
Proof.
  unfold DB.updateContact. rewrite bind_run. unfold new_Date at 1. cbv beta iota.
  rewrite bind_run.
  destruct (await_single _ _) as [[[x|e]|e] w2] eqn:E; [|by intros [=]..].
  intros [= <- <-]. cbv zeta.
  apply await_single_update_inv in E as E'. destruct E' as (r & Hid & Hhit & Hok).
  rewrite (await_single_update _ _ _ _ _ _ _ r Hid Hhit Hok) in E.
  injection E as <- <-. exists r. done.
Qed.

Lemma updateContact_fail agentId id updates w e w' :
  DB.updateContact agentId id updates w = (Throw e, w') →
  store w' = store w ∧
  log w' = log w ++ [contact_update agentId id
                       (contact_changes updates (JDate (client_clock w (tick w))))].
Proof.
  unfold DB.updateContact. rewrite bind_run. unfold new_Date at 1. cbv beta iota.
  rewrite bind_run. unfold await_single. rewrite bind_run. unfold await. cbv beta iota zeta.
  match goal with |- context [exec ?q ?n ?s] =>
    destruct (exec q n s) as [[l|e'] s'] eqn:E end.
  - eapply exec_update_inv in E; [|done..]. destruct E as (r & _ & _ & -> & ->).
    by intros [=].
  - eapply exec_update_fail in E; [|done]. subst s'. simpl.
    intros [= <- <-]. simpl. by rewrite app_nil_r.
Qed.


Lemma tick_step s l w : tick (step s l w) = S (tick w).
Proof. done. Qed.

Lemma client_clock_step s l w : client_clock (step s l w) = client_clock w.
Proof. done. Qed.

Lemma contact_changes_last now now' :
  contact_changes {[ "lastContactAt" := now ]} now' !! "last_contact_at" = Some now.
Proof. reflexivity. Qed.

Lemma insertInteraction_inv agentId interaction w data w1 :
  DB.insertInteraction agentId interaction w = (Return data, w1) →
  ∃ row,
    interaction_rows (store w1) = interaction_rows (store w) ++ [row] ∧
    row !! "id" = data !! "id" ∧ is_Some (row !! "id") ∧
    row !! "agent_id" = Some (JStr agentId) ∧
    contact_rows (store w1) = contact_rows (store w) ∧
    tick w1 = S (tick w) ∧ client_clock w1 = client_clock w ∧
    ∃ q payload, log w1 = log w ++ [q] ∧ q_from q = crm_interactions ∧ q_verb q = Insert payload.
Proof.
  unfold DB.insertInteraction. rewrite bind_run.
  destruct (await_single _ _) as [[[x|e]|e] w'] eqn:E; [|by intros [=]..].
  intros [= <- <-].
  apply await_single_insert_inv in E. cbv zeta in E. destruct E as (Hok & -> & ->).
  match type of Hok with insert_ok _ ?p ?n ?s0 =>
    set (payload := p) in *; set (now := n) in * end.
  set (row := inserted_row crm_interactions payload now (store w)) in *.
  assert (row !! "id" = Some (JNum (interaction_seq (store w)))) as Hid.
  { unfold row, inserted_row. rewrite lookup_union_r; [reflexivity|].
    unfold payload. by rewrite literal_lookup. }
  exists row. split_and!.
  - change (interaction_rows (store (step ?s ?l w))) with (rows crm_interactions s).
    by rewrite rows_after_insert.
  - symmetry. rewrite Hid. by apply present_lookup.
  - by rewrite Hid.
  - apply lookup_union_Some_l. unfold payload. by rewrite literal_lookup.
  - change (contact_rows (store (step ?s ?l w))) with (rows crm_contacts s).
    unfold after_insert. rewrite rows_set_rows_ne by done.
    destruct (decide _); by rewrite ?rows_bump.
  - done.
  - done.
  - eexists _, _. split_and!; done.
Qed.

Lemma matches_agent a r : matches [Eq "agent_id" (JStr a)] r ↔ of_agent a r.
Proof.
  unfold matches, of_agent. rewrite Forall_cons, Forall_nil. simpl. intuition congruence.
Qed.

Lemma filter_agent a (l : list Obj) :
  filter (matches [Eq "agent_id" (JStr a)]) l = filter (of_agent a) l.
Proof. apply list_filter_iff. intros r. apply matches_agent. Qed.

Lemma listContacts_all agentId w :
  DB.listContacts agentId ∅ w
  = (Return (present (all_contacts agentId) (store w)
               <$> merge_sort (row_le "updated_at" false)
                     (filter (of_agent agentId) (contact_rows (store w)))),
     step (store w) [all_contacts agentId] w).
Proof.
  unfold DB.listContacts. rewrite !lookup_empty. cbv zeta. unfold DB.if_truthy.
  rewrite bind_run. unfold await. cbv beta iota zeta.
  rewrite exec_select by done. simpl. by rewrite filter_agent.
Qed.




(** The second write fails when the contact belongs to another agent: the
    call fails and the interaction stays. *)
Lemma addInteraction_foreign_contact :
  (CRM.addInteraction "globex" note_1 two_contacts).1
  = Throw (PgFailure no_single_row) ∧
  length (interaction_rows (store (after (CRM.addInteraction "globex" note_1) two_contacts)))
  = 1%nat.
Proof. split; vm_compute; reflexivity. Qed.

(** C10 (as amended).  Every successful updateContact writes the caller's
    clock reading into [updated_at], whatever the updates object holds;
    with no recognized key the request carries [updated_at] alone.  A
    successful addInteraction therefore leaves the parent contact with a new
    [updated_at] as well as a new [last_contact_at], and the contact heads
    the recency-ordered listing when that reading is later than the
    [updated_at] of the agent's other contacts. *)
Theorem updateContact_always_stamps agentId :
  (∀ id updates w c w',
     DB.updateContact agentId id updates w = (Return c, w') →
     let now := JDate (client_clock w (tick w)) in
     c !! "updated_at" = Some now ∧
     (∃ q changes,
        log w' = log w ++ [q] ∧ q_verb q = Update changes ∧
        changes !! "updated_at" = Some now ∧
        ((∀ k, is_Some (updates !! k) → DB.fieldMap !! k = None) →
         changes = {[ "updated_at" := now ]})) ∧
     ∃ row, filter (owned agentId id) (contact_rows (store w')) = [row] ∧
            row !! "updated_at" = Some now) ∧
  (∀ interaction w data w',
     DB.addInteraction agentId interaction w = (Return data, w') →
     ∃ cid row,
       interaction !! "contactId" = Some cid ∧
       filter (owned agentId cid) (contact_rows (store w')) = [row] ∧
       row !! "last_contact_at" = Some (JDate (client_clock w (S (tick w)))) ∧
       row !! "updated_at" = Some (JDate (client_clock w (S (S (tick w))))) ∧
       ((∀ other, other ∈ contact_rows (store w') → of_agent agentId other →
                  other ≠ row →
                  ∃ u, sort_key "updated_at" other = Some u ∧
                       u < client_clock w (S (S (tick w)))) →
        ∃ l w'' first,
          DB.listContacts agentId ∅ w' = (Return l, w'') ∧
          head l = Some first ∧ first !! "id" = Some cid)).
Proof.
  assert (∀ id updates w c w',
     DB.updateContact agentId id updates w = (Return c, w') →
     let now := JDate (client_clock w (tick w)) in
     c !! "updated_at" = Some now ∧
     (∃ q changes,
        log w' = log w ++ [q] ∧ q_verb q = Update changes ∧
        changes !! "updated_at" = Some now ∧
        ((∀ k, is_Some (updates !! k) → DB.fieldMap !! k = None) →
         changes = {[ "updated_at" := now ]})) ∧
     ∃ row, filter (owned agentId id) (contact_rows (store w')) = [row] ∧
            row !! "updated_at" = Some now ∧
            id ≠ JNull ∧
            ∀ c', c' ≠ "updated_at" →
                  row !! c' = (contact_changes updates now ∪
                               default ∅ (head (filter (owned agentId id) (contact_rows (store w))))) !! c')
    as Hupd.
  { intros id updates w c w' E now. apply updateContact_inv in E.
    destruct E as (old & Hid & Hhit & -> & ->). fold now.
    assert (contact_changes updates now !! "updated_at" = Some now) as Hnow.
    { rewrite contact_changes_lookup by tauto. reflexivity. }
    split_and!.
    - apply present_lookup; [done|]. by apply lookup_union_Some_l.
    - eexists _, _. split_and!; [by simpl; rewrite app_nil_r|done|exact Hnow|].
      intros Hu. by apply map_fields_unrecognized.
    - eexists. split_and!.
      + apply filter_owned_updated; [exact Hhit|..];
          rewrite contact_changes_lookup by tauto; reflexivity.
      + by apply lookup_union_Some_l.
      + done.
      + intros c' _. by rewrite Hhit. }
  split.
  - intros id updates w c w' E now.
    destruct (Hupd _ _ _ _ _ E) as (H1 & H2 & row & H3 & H4 & _). eauto.
  - intros interaction w data w'. unfold DB.addInteraction. rewrite bind_run.
    destruct (DB.insertInteraction agentId interaction w) as [[d|e] w1] eqn:Hins;
      [|by intros [=]].
    rewrite bind_run. unfold new_Date at 1. cbv beta iota. rewrite bind_run.
    destruct (DB.updateContact _ _ _ _) as [[c|e] w2] eqn:E; [|by intros [=]].
    intros [= <- <-].
    apply insertInteraction_inv in Hins
      as (irow & _ & _ & _ & _ & Hcon & Htick & Hclock & _).
    destruct (Hupd _ _ _ _ _ E) as (_ & _ & row & Hhit & Hstamp & Hid & Hrest).
    clear E Hupd.
    rewrite tick_step, client_clock_step, Htick, Hclock in Hstamp.
    assert (row !! "last_contact_at" = Some (JDate (client_clock w (S (tick w))))) as Hlast.
    { rewrite Hrest by done. apply lookup_union_Some_l.
      rewrite <- Htick, <- Hclock. apply contact_changes_last. }
    clear Hrest.
    destruct (interaction !! "contactId") as [cid|] eqn:Hcid;
      [|exfalso; apply Hid; reflexivity].
    change (default JNull (Some cid)) with cid in *.
    exists cid, row. split_and!; [reflexivity|assumption..|].
    intros Hothers. rewrite listContacts_all. eexists _, _, _. split; [done|].
    apply list_filter_singleton_owned in Hhit as Hrow.
    destruct Hrow as [[Hrid Hrag] Hrin].
    assert (head (merge_sort (row_le "updated_at" false)
                    (filter (of_agent agentId) (contact_rows (store w2)))) = Some row) as Hh.
    { apply (head_merge_sort (row_le "updated_at" false)).
      - apply list_elem_of_filter. split; assumption.
      - intros y [Hy Hyin]%list_elem_of_filter Hne.
        destruct (Hothers y Hyin Hy Hne) as (u & Hu & Hlt).
        unfold row_le. rewrite Hu. unfold sort_key. rewrite Hstamp. simpl. lia. }
    apply head_Some in Hh as [rest ->]. rewrite fmap_cons, head_cons.
    split; [reflexivity|]. apply present_lookup; [reflexivity|assumption].
Qed.

Lemma updateContact_always_stamps_witness :
  DB.updateContact "acme" (JNum 1) ∅ two_contacts
  = (Return (returned ∅ (DB.updateContact "acme" (JNum 1) ∅ two_contacts)),
     after (DB.updateContact "acme" (JNum 1) ∅) two_contacts) ∧
  returned ∅ (DB.updateContact "acme" (JNum 1) ∅ two_contacts) !! "updated_at"
  = Some (JDate (client_clock two_contacts (tick two_contacts))).
Proof.
  assert (returns (DB.updateContact "acme" (JNum 1) ∅ two_contacts) = true) as E
    by (vm_compute; reflexivity).
  apply (returns_eq ∅) in E.
  split; [exact E|].
  destruct (updateContact_always_stamps "acme") as [H _].
  exact (proj1 (H (JNum 1) ∅ two_contacts _ _ E)).
Defined.

(** C10, as stated, fails when another contact carries a later
    [updated_at]: contacts are stamped by the server's clock when created
    and by the caller's clock when updated. *)
Lemma addInteraction_not_in_front : ¬ addInteraction_front_claim.
Proof.
  intros H.
  assert (returns (CRM.addInteraction "acme" note_1 two_contacts) = true) as E1
    by (vm_compute; reflexivity).
  apply (returns_eq ∅) in E1.
  assert (returns (CRM.listContacts "acme" ∅
                     (after (CRM.addInteraction "acme" note_1) two_contacts)) = true) as E2
    by (vm_compute; reflexivity).
  apply (returns_eq []) in E2.
  destruct (H "acme" note_1 two_contacts _ _ _ _ E1 E2) as (first & Hhead & Hid).
  assert (head (returned [] (CRM.listContacts "acme" ∅
                  (after (CRM.addInteraction "acme" note_1) two_contacts)))
            ≫= (λ r : Obj, r !! "id") = Some (JNum 2)) as Hsecond
    by (vm_compute; reflexivity).
  rewrite Hhead in Hsecond. simpl in Hsecond. rewrite Hid in Hsecond.
  vm_compute in Hsecond. discriminate.
Qed.

(** ** Listing stages *)

(** A list sorted strictly is the only sorted arrangement of its elements. *)
Lemma sorted_unique {A} (R : relation A) (l1 l2 : list A) :
  l1 ≡ₚ l2 → StronglySorted R l1 → StronglySorted (λ x y, ¬ R y x) l2 → l1 = l2.
Proof.
  revert l1. induction l2 as [|y l2 IH]; intros l1 Hp H1 H2.
  - by apply Permutation_nil_r in Hp.
  - destruct l1 as [|x l1]; [by apply Permutation_nil_cons in Hp|].
    apply StronglySorted_inv in H1 as [H1 Hx], H2 as [H2 Hy].
    rewrite Forall_forall in Hx, Hy.
    assert (x = y) as ->.
    { assert (x ∈ y :: l2) as Hin by (rewrite <- Hp; left).
      apply elem_of_cons in Hin as [|Hin]; [done|].
      assert (y ∈ x :: l1) as Hin' by (rewrite Hp; left).
      apply elem_of_cons in Hin' as [|Hin']; [done|].
      destruct (Hy x Hin). by apply Hx. }
    f_equal. apply IH; [by apply Permutation_cons_inv in Hp|done..].
Qed.

Lemma merge_sort_sorted c asc (l : list Obj) :
  StronglySorted (λ x y, ¬ row_le c asc y x) l →
  merge_sort (row_le c asc) l = l.
Proof.
  intros Hl. apply (sorted_unique (row_le c asc)); [|apply StronglySorted_merge_sort; apply _|done].
  apply merge_sort_Permutation.
Qed.

Lemma strictly_sorted_keys c (l : list Obj) (ks : list Z) :
  sort_key c <$> l = Some <$> ks → StronglySorted Z.lt ks →
  StronglySorted (λ x y, ¬ row_le c true y x) l.
Proof.
  revert ks. induction l as [|x l IH]; intros ks Hk Hs; [constructor|].
  destruct ks as [|k ks]; [done|]. rewrite !fmap_cons in Hk. injection Hk as Hx Hl.
  apply StronglySorted_inv in Hs as [Hs Hlt]. constructor; [by eapply IH|].
  rewrite Forall_forall in Hlt. rewrite Forall_forall. intros y Hy.
  assert (∃ ky, sort_key c y = Some ky ∧ ky ∈ ks) as (ky & Hky & Hin).
  { apply (list_elem_of_fmap_2 (sort_key c)) in Hy. rewrite Hl in Hy.
    apply list_elem_of_fmap in Hy as (ky & ? & ?). eauto. }
  unfold row_le. rewrite Hx, Hky. simpl. specialize (Hlt ky Hin). lia.
Qed.

Lemma present_plain q s r :
  q_columns q = None → q_embed q = None → present q s r = r.
Proof. intros Hc He. unfold present. rewrite Hc, He. simpl. apply (right_id ∅ (∪)). Qed.

Lemma fmap_present_plain q s (l : list Obj) :
  q_columns q = None → q_embed q = None → present q s <$> l = l.
Proof.
  intros Hc He. induction l as [|x l IH]; [reflexivity|].
  by rewrite fmap_cons, IH, present_plain.
Qed.

Lemma listStages_run agentId w :
  DB.listStages agentId w
  = (Return (stages_of agentId (store w)), step (store w) [all_stages agentId] w).
Proof.
  unfold DB.listStages. rewrite bind_run. unfold await. cbv beta iota zeta.
  rewrite exec_select by reflexivity.
  rewrite fmap_present_plain by reflexivity.
  unfold window, ordered. simpl. by rewrite filter_agent.
Qed.

(** ** Seeding stages *)

Lemma sequence_ahead_fresh t s :
  sequence_ahead t s → Some (JNum (serial t s)) ∉ ids (rows t s).
Proof.
  intros Hs Hin. unfold ids in Hin. apply list_elem_of_fmap in Hin as (r & Hr & Hin).
  specialize (Hs r _ Hin (eq_sym Hr)). lia.
Qed.

Lemma serial_bump t s : serial t (bump t s) = serial t s + 1.
Proof. by destruct t. Qed.

Lemma serial_set_rows t t' l s : serial t (set_rows t' l s) = serial t s.
Proof. by destruct t, t'. Qed.

Lemma serial_after_insert t payload now s :
  payload !! "id" = None → serial t (after_insert t payload now s) = serial t s + 1.
Proof.
  intros Hp. unfold after_insert. rewrite serial_set_rows.
  destruct (decide _) as [[? H]|_]; [congruence|]. apply serial_bump.
Qed.

Lemma createStage_seed agentId stage w :
  seed_ok stage → sequence_ahead crm_stages (store w) →
  ∃ row w',
    CRM.createStage agentId stage w = (Return row, w') ∧
    seeded agentId stage row ∧
    stage_rows (store w') = stage_rows (store w) ++ [row] ∧
    sequence_ahead crm_stages (store w').
Proof.
  intros (n & p & c & Hn & Hn' & Hp & Hc & Hc') Hseq.
  unfold CRM.createStage. rewrite Hn, Hp.
  replace (truthy (Some (JStr n))) with true
    by (simpl; symmetry; by apply negb_true_iff, String.eqb_neq).
  cbv beta iota. change (negb true) with false. cbv iota.
  rewrite bind_run. unfold mret at 1, M_ret at 1. cbv beta iota.
  unfold DB.createStage. rewrite Hn, Hp, Hc, bind_run.
  replace (or_else (Some (JStr c)) JNull) with (JStr c).
  2:{ unfold or_else, truthy. by rewrite (proj2 (String.eqb_neq c "")). }
  match goal with |- context [Q.insert ?pl] => set (payload := pl) end.
  assert (inserted_row crm_stages payload (server_clock w (tick w)) (store w) !! "id"
          = Some (JNum (stage_seq (store w)))) as Hid by reflexivity.
  rewrite await_single_insert.
  2:{ split_and!; [reflexivity|reflexivity| |reflexivity].
      rewrite Hid. by apply (sequence_ahead_fresh crm_stages). }
  unfold data_or_throw, mret, M_ret. rewrite present_plain by reflexivity.
  eexists _, _. split; [reflexivity|]. split_and!.
  - split_and!; [reflexivity|by rewrite Hn|by rewrite Hp|by rewrite Hc].
  - change (stage_rows (store (step ?s ?l w))) with (rows crm_stages s).
    by rewrite rows_after_insert.
  - intros r k. change (store (step ?s ?l w)) with s.
    rewrite rows_after_insert, serial_after_insert by reflexivity.
    intros [Hr|Hr%list_elem_of_singleton]%elem_of_app Hk.
    + specialize (Hseq r k Hr Hk). lia.
    + subst r. rewrite Hid in Hk. injection Hk as <-. simpl. lia.
Qed.

Lemma collect_seeds agentId (seeds : list Obj) w :
  Forall seed_ok seeds → sequence_ahead crm_stages (store w) →
  ∃ created w',
    collect seeds (CRM.createStage agentId) w = (Return created, w') ∧
    Forall2 (seeded agentId) seeds created ∧
    stage_rows (store w') = stage_rows (store w) ++ created ∧
    sequence_ahead crm_stages (store w').
Proof.
  revert w. induction seeds as [|seed seeds IH]; intros w Hok Hseq.
  - exists [], w. split_and!; [reflexivity|constructor|by rewrite app_nil_r|done].
  - apply Forall_cons in Hok as [Hseed Hok].
    destruct (createStage_seed agentId seed w Hseed Hseq) as (row & w1 & E & Hrow & Hrows & Hseq1).
    destruct (IH w1 Hok Hseq1) as (created & w2 & E2 & Hall & Hrows2 & Hseq2).
    exists (row :: created), w2. split_and!.
    + simpl. rewrite bind_run, E, bind_run, E2. reflexivity.
    + by constructor.
    + rewrite Hrows2, Hrows, <- app_assoc. reflexivity.
    + done.
Qed.

Lemma defaultStages_ok : Forall seed_ok CRM.defaultStages.
Proof.
  unfold CRM.defaultStages.
  repeat (apply Forall_cons; split;
          [eexists _, _, _; split_and!; [reflexivity|done|reflexivity|reflexivity|done]|]).
  apply Forall_nil. done.
Qed.

Lemma seeded_label agentId (seeds created : list Obj) :
  Forall2 (seeded agentId) seeds created →
  label <$> created = label <$> seeds ∧
  sort_key "position" <$> created = sort_key "position" <$> seeds ∧
  filter (of_agent agentId) created = created.
Proof.
  induction 1 as [|seed row seeds created (Ha & Hn & Hp & Hc) _ (IH1 & IH2 & IH3)];
    [done|].
  rewrite !fmap_cons, IH1, IH2, filter_cons, decide_True, IH3 by done.
  unfold label, sort_key. by rewrite Hn, Hp, Hc.
Qed.

(** C3.  initializeDefaultStages first lists the agent's stages.  If there
    is one, it returns that list with status [already_initialized] and sends
    no other request, so the store is as before.  If there is none, it
    creates six stages, Lead, Contacted, Qualified, Proposal, Negotiation
    and Won, at positions 1 to 6 with their fixed colors, appends them to the
    table and returns them with status [initialized]; a second call then
    returns the same six rows with status [already_initialized].  The store
    is taken to hand out ids that are not in use. *)
Theorem initializeDefaultStages_idempotent agentId w :
  let existing := stages_of agentId (store w) in
  CRM.listStages agentId w = (Return existing, step (store w) [all_stages agentId] w) ∧
  (existing ≠ [] →
   CRM.initializeDefaultStages agentId w
   = (Return {| CRM.status := "already_initialized"; CRM.stages := existing |},
      step (store w) [all_stages agentId] w)) ∧
  (existing = [] → sequence_ahead crm_stages (store w) →
   ∃ created w1,
     CRM.initializeDefaultStages agentId w
     = (Return {| CRM.status := "initialized"; CRM.stages := created |}, w1) ∧
     label <$> created
     = [ (Some (JStr "Lead"), Some (JNum 1), Some (JStr "#6366f1"));
         (Some (JStr "Contacted"), Some (JNum 2), Some (JStr "#8b5cf6"));
         (Some (JStr "Qualified"), Some (JNum 3), Some (JStr "#a855f7"));
         (Some (JStr "Proposal"), Some (JNum 4), Some (JStr "#d946ef"));
         (Some (JStr "Negotiation"), Some (JNum 5), Some (JStr "#ec4899"));
         (Some (JStr "Won"), Some (JNum 6), Some (JStr "#22c55e")) ] ∧
     Forall (of_agent agentId) created ∧
     stage_rows (store w1) = stage_rows (store w) ++ created ∧
     CRM.initializeDefaultStages agentId w1
     = (Return {| CRM.status := "already_initialized"; CRM.stages := created |},
        step (store w1) [all_stages agentId] w1)).
Proof.
  intros existing.
  assert (∀ w0, stages_of agentId (store w0) ≠ [] →
            CRM.initializeDefaultStages agentId w0
            = (Return {| CRM.status := "already_initialized";
                         CRM.stages := stages_of agentId (store w0) |},
               step (store w0) [all_stages agentId] w0)) as Halready.
  { intros w0 Hne. unfold CRM.initializeDefaultStages, CRM.listStages.
    rewrite bind_run, listStages_run.
    destruct (decide _) as [_|Hlen]; [reflexivity|].
    destruct (stages_of agentId (store w0)); [done|]. simpl in Hlen. lia. }
  split_and!.
  - apply listStages_run.
  - apply Halready.
  - intros Hnone Hseq.
    destruct (collect_seeds agentId CRM.defaultStages
                (step (store w) [all_stages agentId] w) defaultStages_ok Hseq)
      as (created & w1 & E & Hall & Hrows & _).
    destruct (seeded_label _ _ _ Hall) as (Hlabel & Hkeys & Hmine).
    exists created, w1. split_and!.
    + unfold CRM.initializeDefaultStages, CRM.listStages.
      rewrite bind_run, listStages_run. fold existing. rewrite Hnone.
      destruct (decide _) as [Hlen|_]; [simpl in Hlen; lia|].
      rewrite bind_run, E. reflexivity.
    + rewrite Hlabel. reflexivity.
    + rewrite <- Hmine. apply Forall_forall. intros r Hr.
      by apply list_elem_of_filter in Hr as [? _].
    + exact Hrows.
    + assert (stages_of agentId (store w1) = created) as Hsame.
      { unfold stages_of. rewrite Hrows. simpl. rewrite filter_app, Hmine.
        replace (filter (of_agent agentId) (stage_rows (store w))) with (@nil Obj).
        2:{ symmetry. apply Permutation_nil_r.
            rewrite <- (merge_sort_Permutation (row_le "position" true)).
            unfold existing, stages_of in Hnone. by rewrite Hnone. }
        simpl. apply merge_sort_sorted.
        apply (strictly_sorted_keys _ _ [1; 2; 3; 4; 5; 6]); [by rewrite Hkeys|].
        repeat (constructor; [|repeat constructor; lia]). constructor. }
      rewrite <- Hsame at 1. apply Halready. rewrite Hsame.
      apply Forall2_length in Hall. destruct created; [done|done].
Qed.

Lemma initializeDefaultStages_idempotent_witness :
  stages_of "acme" (store fresh) = [] ∧
  sequence_ahead crm_stages (store fresh) ∧
  ∃ created w1,
    CRM.initializeDefaultStages "acme" fresh
    = (Return {| CRM.status := "initialized"; CRM.stages := created |}, w1) ∧
    length created = 6%nat ∧
    CRM.initializeDefaultStages "acme" w1
    = (Return {| CRM.status := "already_initialized"; CRM.stages := created |},
       step (store w1) [all_stages "acme"] w1).
Proof.
  assert (stages_of "acme" (store fresh) = []) as Hnone by reflexivity.
  assert (sequence_ahead crm_stages (store fresh)) as Hseq.
  { intros r n Hin. by apply elem_of_nil in Hin. }
  split; [exact Hnone|]. split; [exact Hseq|].
  destruct (initializeDefaultStages_idempotent "acme" fresh) as (_ & _ & H).
  destruct (H Hnone Hseq) as (created & w1 & E & Hl & _ & _ & E2).
  exists created, w1. split; [exact E|]. split; [|exact E2].
  rewrite <- (length_fmap label), Hl. reflexivity.
Defined.

(** ** Sums *)









(** ** Pipeline statistics *)





















(** ** Reordering stages *)

Lemma updateStage_position agentId id p w r :
  id ≠ JNull → filter (owned agentId id) (stage_rows (store w)) = [r] →
  ∃ w',
    DB.updateStage agentId id {[ "position" := JNum p ]} w
    = (Return ({[ "position" := JNum p ]} ∪ r), w') ∧
    stage_rows (store w')
    = (λ x, if decide (owned agentId id x) then {[ "position" := JNum p ]} ∪ x else x)
        <$> stage_rows (store w).
Proof.
  intros Hid Hhit. unfold DB.updateStage. rewrite bind_run.
  rewrite (await_single_update _ _ crm_stages _ _ _ _ r Hid Hhit);
    [|split_and!; [reflexivity..|by intros [? [=]]|reflexivity]].
  rewrite present_plain by reflexivity.
  eexists. split; reflexivity.
Qed.

Lemma owned_repositioned a id (p : JsVal) (x : Obj) :
  owned a id ({[ "position" := p ]} ∪ x) ↔ owned a id x.
Proof. unfold owned. by rewrite !lookup_union_r. Qed.

Lemma filter_owned_repositioned a id id' p (l : list Obj) :
  filter (owned a id)
    ((λ x, if decide (owned a id' x) then {[ "position" := p ]} ∪ x else x) <$> l)
  = (λ x, if decide (owned a id' x) then {[ "position" := p ]} ∪ x else x)
      <$> filter (owned a id) l.
Proof.
  induction l as [|x l IH]; [done|].
  rewrite fmap_cons, !filter_cons, IH.
  destruct (decide (owned a id' x)) as [Hx|Hx].
  - destruct (decide (owned a id ({[ "position" := p ]} ∪ x))) as [H1|H1],
             (decide (owned a id x)) as [H2|H2].
    + rewrite fmap_cons. by rewrite decide_True.
    + destruct H2. by apply owned_repositioned in H1.
    + destruct H1. by apply owned_repositioned.
    + done.
  - destruct (decide (owned a id x)) as [H2|H2]; [|done].
    rewrite fmap_cons. by rewrite decide_False.
Qed.

Lemma StronglySorted_filter {A} (R : relation A) (P : A → Prop) `{∀ x, Decision (P x)}
    (l : list A) :
  StronglySorted R l → StronglySorted R (filter P l).
Proof.
  induction 1 as [|x l Hl IH Hx]; [constructor|].
  rewrite filter_cons. destruct (decide (P x)); [|done].
  constructor; [done|]. rewrite Forall_forall in Hx. apply Forall_forall.
  intros y [_ Hy]%list_elem_of_filter. by apply Hx.
Qed.

Lemma filter_or {A} (P Q : A → Prop) `{∀ x, Decision (P x)} `{∀ x, Decision (Q x)}
    (l : list A) :
  (∀ x, P x → Q x → False) →
  filter (λ x, P x ∨ Q x) l ≡ₚ filter P l ++ filter Q l.
Proof.
  intros Hdis. induction l as [|x l IH]; [done|].
  rewrite !filter_cons.
  destruct (decide (P x)) as [HP|HP], (decide (Q x)) as [HQ|HQ].
  - destruct (Hdis x HP HQ).
  - rewrite decide_True by tauto. simpl. by rewrite IH.
  - rewrite decide_True by tauto. rewrite IH. apply Permutation_middle.
  - rewrite decide_False by tauto. done.
Qed.

Lemma slot_succ k i : slot k (S i) = slot (S k) i.
Proof. unfold slot. do 2 f_equal. lia. Qed.

Lemma reorder_loop a (stageIds : list JsVal) k w :
  NoDup stageIds →
  (∀ id, id ∈ stageIds →
         id ≠ JNull ∧ ∃ r, filter (owned a id) (stage_rows (store w)) = [r]) →
  ∃ w',
    for_each (imap (λ i id, (id, slot k i)) stageIds) (reposition a) w = (Return tt, w') ∧
    (∀ i id, stageIds !! i = Some id →
       ∃ r, filter (owned a id) (stage_rows (store w')) = [r] ∧
            r !! "position" = Some (slot k i)) ∧
    (∀ id, id ∉ stageIds →
       filter (owned a id) (stage_rows (store w'))
       = filter (owned a id) (stage_rows (store w))).
Proof.
  revert k w. induction stageIds as [|id ids IH]; intros k w Hnd Hall.
  - exists w. split_and!; [reflexivity|by intros ? ? ?|done].
  - apply NoDup_cons in Hnd as [Hnotin Hnd].
    destruct (Hall id (list_elem_of_here _ _)) as (Hid & r & Hr).
    destruct (updateStage_position a id (Z.of_nat (k + 0) + 1) w r Hid Hr) as (w1 & E1 & Hrows1).
    set (upd := λ x : Obj, if decide (owned a id x)
                           then {[ "position" := JNum (Z.of_nat (k + 0) + 1) ]} ∪ x else x) in *.
    assert (∀ id', filter (owned a id') (stage_rows (store w1))
                   = upd <$> filter (owned a id') (stage_rows (store w))) as Hfilt.
    { intros id'. rewrite Hrows1. apply filter_owned_repositioned. }
    assert (∀ id', id' ≠ id →
              filter (owned a id') (stage_rows (store w1))
              = filter (owned a id') (stage_rows (store w))) as Hother.
    { intros id' Hne. rewrite Hfilt.
      assert (Forall (λ x, ¬ owned a id x) (filter (owned a id') (stage_rows (store w)))) as Hno.
      { apply Forall_forall. intros x [[Hx _] _]%list_elem_of_filter [Hx' _]. congruence. }
      induction Hno as [|x l Hx _ IHl]; [done|].
      rewrite fmap_cons, IHl. unfold upd at 1. by rewrite decide_False. }
    destruct (IH (S k) w1 Hnd) as (w' & E & Hpos & Hrest).
    { intros id' Hin. destruct (Hall id' (list_elem_of_further _ _ _ Hin)) as (Hid' & r' & Hr').
      split; [exact Hid'|]. exists r'. rewrite Hother; [exact Hr'|]. intros ->.
      exact (Hnotin Hin). }
    exists w'. split_and!.
    + rewrite imap_cons. cbn [for_each]. rewrite bind_run.
      unfold reposition at 1. cbn [fst snd]. unfold slot at 1. rewrite E1.
      erewrite imap_ext; [exact E|]. intros i x _. cbn. by rewrite slot_succ.
    + intros [|i] id' Hlook.
      * injection Hlook as <-. rewrite (Hrest _ Hnotin). rewrite Hfilt, Hr.
        eexists. split; [reflexivity|]. unfold upd.
        apply list_filter_singleton_owned in Hr as [Hown _].
        rewrite decide_True by exact Hown. apply lookup_union_Some_l. reflexivity.
      * destruct (Hpos i id' Hlook) as (r' & Hr' & Hp). exists r'. split; [exact Hr'|].
        rewrite slot_succ. exact Hp.
    + intros id' [Hne Hnot]%not_elem_of_cons. rewrite (Hrest _ Hnot).
      apply Hother. exact Hne.
Qed.

Lemma listed_rows a (rows : list Obj) (stageIds : list JsVal) :
  NoDup stageIds →
  (∀ id, id ∈ stageIds → ∃ r, filter (owned a id) rows = [r]) →
  filter (listed stageIds) (filter (of_agent a) rows) ≡ₚ row_of a rows <$> stageIds.
Proof.
  induction stageIds as [|id ids IH]; intros Hnd Hall.
  - rewrite (list_filter_iff _ (λ _, False)).
    + by induction (filter (of_agent a) rows).
    + intros r. unfold listed. rewrite fmap_nil. split; [apply elem_of_nil|done].
  - apply NoDup_cons in Hnd as [Hnotin Hnd].
    rewrite (list_filter_iff _ (λ r : Obj, r !! "id" = Some id ∨ listed ids r)).
    2:{ intros r. unfold listed. rewrite fmap_cons, elem_of_cons. done. }
    rewrite filter_or.
    2:{ intros r Hr Hl. unfold listed in Hl. rewrite Hr in Hl.
        apply list_elem_of_fmap in Hl as (id' & [= <-] & Hin). done. }
    rewrite fmap_cons, IH; [|done|intros id' Hin; apply Hall; by right].
    rewrite list_filter_filter.
    destruct (Hall id ltac:(left)) as (r & Hr).
    assert (row_of a rows id = r) as -> by (unfold row_of; by rewrite Hr).
    rewrite (list_filter_iff _ (owned a id)); [by rewrite Hr|].
    intros x. unfold owned, of_agent. done.
Qed.

Lemma slots_increase k n :
  StronglySorted Z.lt ((λ i : nat, Z.of_nat (k + i) + 1) <$> seq 0 n).
Proof.
  revert k. induction n as [|n IH]; intros k; [constructor|].
  rewrite <- cons_seq, fmap_cons, <- fmap_S_seq, <- list_fmap_compose. constructor.
  - erewrite list_fmap_ext; [apply (IH (S k))|]. intros _ i _. simpl. lia.
  - apply Forall_forall. intros z (i & -> & _)%list_elem_of_fmap. simpl. lia.
Qed.

Lemma repositioned_rows a (rows : list Obj) (stageIds : list JsVal) k :
  (∀ i id, stageIds !! i = Some id →
     ∃ r, filter (owned a id) rows = [r] ∧ r !! "position" = Some (slot k i)) →
  (λ r : Obj, r !! "id") <$> (row_of a rows <$> stageIds) = Some <$> stageIds ∧
  (λ r : Obj, r !! "position") <$> (row_of a rows <$> stageIds)
  = (λ i : nat, Some (slot k i)) <$> seq 0 (length stageIds) ∧
  sort_key "position" <$> (row_of a rows <$> stageIds)
  = Some <$> ((λ i : nat, Z.of_nat (k + i) + 1) <$> seq 0 (length stageIds)).
Proof.
  revert k. induction stageIds as [|id ids IH]; intros k Hpos; [done|].
  destruct (Hpos 0%nat id eq_refl) as (r & Hr & Hp).
  destruct (IH (S k)) as (IH1 & IH2 & IH3).
  { intros i id' Hi. destruct (Hpos (S i) id' Hi) as (r' & Hr' & Hp').
    exists r'. by rewrite <- slot_succ. }
  assert (row_of a rows id = r) as Hrow by (unfold row_of; by rewrite Hr).
  apply list_filter_singleton_owned in Hr as [[Hid _] _].
  assert (∀ {B} (f : nat → B),
            f <$> seq 0 (length (id :: ids))
            = f 0%nat :: ((λ i, f (S i)) <$> seq 0 (length ids))) as Hseq.
  { intros B f. cbn [length]. rewrite <- cons_seq, fmap_cons, <- fmap_S_seq.
    by rewrite <- list_fmap_compose. }
  rewrite !Hseq, !fmap_cons, IH1, IH2, IH3, Hrow, Hid.
  split_and!.
  - done.
  - rewrite Hp. f_equal. apply list_fmap_ext. intros _ i _. by rewrite slot_succ.
  - unfold sort_key. rewrite Hp. unfold slot. do 2 f_equal.
    apply list_fmap_ext. intros _ i _. f_equal. lia.
Qed.

(** C7 (as amended).  For a list of distinct ids, each the id of one stage
    of the agent, reorderStages succeeds, having set the position of the
    [i]-th listed stage to [i + 1] one request after the other, and returns
    what listStages then returns: there the listed stages come in the order
    of the list, at positions 1 to n. *)
Theorem reorderStages_order agentId stageIds w :
  NoDup stageIds →
  (∀ id, id ∈ stageIds →
         id ≠ JNull ∧ ∃ r, filter (owned agentId id) (stage_rows (store w)) = [r]) →
  ∃ result w',
    CRM.reorderStages agentId stageIds w = (Return result, w') ∧
    CRM.listStages agentId w' = (Return result, step (store w') [all_stages agentId] w') ∧
    (λ r : Obj, r !! "id") <$> filter (listed stageIds) result = Some <$> stageIds ∧
    (λ r : Obj, r !! "position") <$> filter (listed stageIds) result
    = (λ i : nat, Some (JNum (Z.of_nat i + 1))) <$> seq 0 (length stageIds).
Proof.
  intros Hnd Hall.
  destruct (reorder_loop agentId stageIds 0 w Hnd Hall) as (w1 & E & Hpos & _).
  set (rows := stage_rows (store w1)) in *.
  assert (filter (listed stageIds) (stages_of agentId (store w1))
          = row_of agentId rows <$> stageIds) as Hsame.
  { destruct (repositioned_rows agentId rows stageIds 0 Hpos) as (_ & _ & Hkeys).
    apply (sorted_unique (row_le "position" true)).
    - unfold stages_of. rewrite merge_sort_Permutation. apply listed_rows; [done|].
      intros id Hin. apply list_elem_of_lookup in Hin as [i Hi].
      destruct (Hpos i id Hi) as (r & Hr & _). eauto.
    - apply StronglySorted_filter, StronglySorted_merge_sort; apply _.
    - eapply strictly_sorted_keys; [exact Hkeys|apply slots_increase]. }
  destruct (repositioned_rows agentId rows stageIds 0 Hpos) as (Hids & Hposs & _).
  exists (stages_of agentId (store w1)), (step (store w1) [all_stages agentId] w1).
  split_and!.
  - unfold CRM.reorderStages, DB.reorderStages. rewrite bind_run.
    change (for_each _ _ w) with
      (for_each (imap (λ i id, (id, slot 0 i)) stageIds) (reposition agentId) w).
    rewrite E. apply listStages_run.
  - unfold CRM.listStages. rewrite listStages_run. reflexivity.
  - by rewrite Hsame.
  - rewrite Hsame, Hposs. reflexivity.
Qed.

Lemma reorderStages_order_witness :
  NoDup [JNum 3; JNum 1; JNum 2] ∧
  (∀ id, id ∈ [JNum 3; JNum 1; JNum 2] →
         id ≠ JNull ∧ ∃ r, filter (owned "acme" id) (stage_rows (store acme_stages)) = [r]) ∧
  ∃ result w',
    CRM.reorderStages "acme" [JNum 3; JNum 1; JNum 2] acme_stages = (Return result, w') ∧
    CRM.listStages "acme" w' = (Return result, step (store w') [all_stages "acme"] w') ∧
    (λ r : Obj, r !! "id") <$> filter (listed [JNum 3; JNum 1; JNum 2]) result
    = [Some (JNum 3); Some (JNum 1); Some (JNum 2)] ∧
    (λ r : Obj, r !! "position") <$> filter (listed [JNum 3; JNum 1; JNum 2]) result
    = [Some (JNum 1); Some (JNum 2); Some (JNum 3)].
Proof.
  assert (NoDup [JNum 3; JNum 1; JNum 2]) as H1.
  { apply (bool_decide_unpack _). vm_compute. reflexivity. }
  assert (∀ id, id ∈ [JNum 3; JNum 1; JNum 2] →
            id ≠ JNull ∧
            ∃ r, filter (owned "acme" id) (stage_rows (store acme_stages)) = [r]) as H2.
  { intros id Hin. repeat (apply elem_of_cons in Hin as [->|Hin]);
      [| | |by apply elem_of_nil in Hin];
      (split; [discriminate|]; eexists; apply (singleton_head ∅);
       vm_compute; reflexivity). }
  split; [exact H1|]. split; [exact H2|].
  destruct (reorderStages_order "acme" [JNum 3; JNum 1; JNum 2] acme_stages H1 H2)
    as (result & w' & E & E' & Hi & Hp).
  exists result, w'. split_and!; [exact E|exact E'|exact Hi|exact Hp].
Defined.

(** C7, as stated, fails for a list that names a stage twice: the stage
    keeps the position written last and is listed once. *)
Lemma reorderStages_repeated_id : ¬ reorderStages_claim.
Proof.
  intros H.
  assert (returns (CRM.reorderStages "acme" [JNum 3; JNum 3] acme_stages) = true) as E
    by (vm_compute; reflexivity).
  apply (returns_eq []) in E.
  assert (returns (CRM.listStages "acme"
                     (after (CRM.reorderStages "acme" [JNum 3; JNum 3]) acme_stages)) = true)
    as E2 by (vm_compute; reflexivity).
  apply (returns_eq []) in E2.
  destruct (H "acme" [JNum 3; JNum 3] acme_stages _ _ _ _ E E2) as [Hids _].
  assert (length (filter (listed [JNum 3; JNum 3])
            (returned [] (CRM.listStages "acme"
               (after (CRM.reorderStages "acme" [JNum 3; JNum 3]) acme_stages)))) = 1%nat)
    as Hone by (vm_compute; reflexivity).
  apply (f_equal length) in Hids. rewrite length_fmap, Hone in Hids. discriminate Hids.
Qed.

(** ** Tenants *)

(** C1.  A stage reference is not confined to the agent's own stages.
    With the six stages created by "acme" in the store, createContact under
    "globex" with [stageId] 1 succeeds and returns the name of the stage of
    "acme"; getContact under "globex" returns it again; and when "acme"
    deletes its stage, the contact of "globex" loses its stage. *)
Theorem stage_reference_crosses_tenants :
  (λ r : Obj, (r !! "agent_id", r !! "name")) <$> stage_rows (store acme_stages)
  = (λ n, (Some (JStr "acme"), Some (JStr n))) <$>
    ["Lead"; "Contacted"; "Qualified"; "Proposal"; "Negotiation"; "Won"] ∧
  returns (CRM.createContact "globex" mallory acme_stages) = true ∧
  returned ∅ (CRM.createContact "globex" mallory acme_stages) !! "crm_stages.name"
  = Some (JStr "Lead") ∧
  returned ∅ (CRM.getContact "globex" (JNum 1) crossed) !! "crm_stages.name"
  = Some (JStr "Lead") ∧
  (λ r : Obj, r !! "stage_id") <$> returned [] (CRM.listContacts "globex" ∅ crossed)
  = [Some (JNum 1)] ∧
  returns (CRM.deleteStage "acme" (JNum 1) crossed) = true ∧
  (λ r : Obj, r !! "stage_id") <$>
    returned [] (CRM.listContacts "globex" ∅ (after (CRM.deleteStage "acme" (JNum 1)) crossed))
  = [Some JNull].
Proof. split_and!; vm_compute; reflexivity. Qed.

(** ** Reading by key *)

Lemma await_single_select a id t cols emb w :
  await_single (Q.from t |> Q.select cols emb |> Q.eq "id" id
                |> Q.eq "agent_id" (JStr a)) w
  = (Return (match filter (matches (by_key a id)) (rows t (store w)) with
             | [r] => Data (present (by_id t a id cols emb) (store w) r)
             | _ => Error no_single_row
             end),
     step (store w) [by_id t a id cols emb] w).
Proof.
  unfold await_single. rewrite bind_run. unfold await. cbv beta iota zeta.
  unfold exec. cbn [q_verb Q.single Q.eq Q.where_ Q.select Q.from q_returning q_single
                    q_filters q_from app].
  fold (by_key a id). unfold window, ordered.
  cbn [q_order q_limit q_offset Q.single Q.eq Q.where_ Q.select Q.from].
  destruct (filter (matches (by_key a id)) (rows t (store w))) as [|r [|r' l]];
    reflexivity.
Qed.

Lemma getContact_run a id w :
  DB.getContact a id w
  = (match filter (matches (by_key a id)) (contact_rows (store w)) with
     | [r] => Return (present (by_id crm_contacts a id Q.star Q.with_stage) (store w) r)
     | _ => Throw (PgFailure no_single_row)
     end,
     step (store w) [by_id crm_contacts a id Q.star Q.with_stage] w).
Proof.
  unfold DB.getContact. rewrite bind_run, await_single_select.
  change (rows crm_contacts (store w)) with (contact_rows (store w)).
  destruct (filter _ _) as [|r [|r' l]]; reflexivity.
Qed.

(** ** Creating a contact *)

Lemma contact_payload_key a contact entered now s :
  inserted_row crm_contacts (contact_payload a contact entered) now s !! "id"
  = Some (JNum (contact_seq s)) ∧
  inserted_row crm_contacts (contact_payload a contact entered) now s !! "agent_id"
  = Some (JStr a).
Proof.
  split.
  - unfold inserted_row. rewrite lookup_union_r; [reflexivity|].
    unfold contact_payload. by rewrite literal_lookup.
  - apply lookup_union_Some_l. unfold contact_payload. by rewrite literal_lookup.
Qed.

Lemma createContact_inv a contact w c w' :
  DB.createContact a contact w = (Return c, w') →
  let w0 := stamped contact w in
  let payload := contact_payload a contact (entered_at contact w) in
  let now := server_clock w0 (tick w0) in
  let row := inserted_row crm_contacts payload now (store w) in
  let s' := after_insert crm_contacts payload now (store w) in
  insert_ok crm_contacts payload now (store w) ∧
  w' = step s' [contact_insert payload] w0 ∧
  c = present (contact_insert payload) s' row ∧
  row !! "id" = Some (JNum (contact_seq (store w))) ∧
  row !! "agent_id" = Some (JStr a).
Proof.
  unfold DB.createContact, stamped, entered_at. rewrite bind_run.
  destruct (truthy (contact !! "stageId")).
  - unfold new_Date at 1. cbv beta iota. rewrite bind_run.
    destruct (await_single _ _) as [[[x|e]|e] w1] eqn:E; [|by intros [=]..].
    intros [= <- <-]. apply await_single_insert_inv in E. cbv zeta in E.
    destruct E as (Hok & -> & ->). cbv zeta.
    split_and!; [exact Hok|unfold contact_insert, contact_payload; reflexivity
                |unfold contact_insert, contact_payload; reflexivity
                |apply contact_payload_key..].
  - unfold mret at 1, M_ret at 1. cbv beta iota. rewrite bind_run.
    destruct (await_single _ _) as [[[x|e]|e] w1] eqn:E; [|by intros [=]..].
    intros [= <- <-]. apply await_single_insert_inv in E. cbv zeta in E.
    destruct E as (Hok & -> & ->). cbv zeta.
    split_and!; [exact Hok|unfold contact_insert, contact_payload; reflexivity
                |unfold contact_insert, contact_payload; reflexivity
                |apply contact_payload_key..].
Qed.

Lemma filter_owned_snoc a id (l : list Obj) (row : Obj) :
  Some id ∉ ids l → row !! "id" = Some id →
  filter (owned a id) (l ++ [row])
  = if decide (row !! "agent_id" = Some (JStr a)) then [row] else [].
Proof.
  intros Hfresh Hid. rewrite filter_app, (filter_owned_fresh _ _ _ Hfresh), filter_cons.
  destruct (decide (row !! "agent_id" = Some (JStr a))) as [Ha|Ha].
  - rewrite decide_True; [reflexivity|]. by split.
  - rewrite decide_False; [reflexivity|]. by intros [_ ?].
Qed.

(** X1. createContact and getContact: what was created is what is read
    back, by the agent that created it and by no other. *)
Theorem createContact_getContact agentId contact w c w' :
  CRM.createContact agentId contact w = (Return c, w') →
  ∃ id,
    c !! "id" = Some id ∧
    (CRM.getContact agentId id w').1 = Return c ∧
    store (CRM.getContact agentId id w').2 = store w' ∧
    ∀ other, other ≠ agentId →
      (CRM.getContact other id w').1 = Throw (PgFailure no_single_row).
Proof.
  unfold CRM.createContact, CRM.getContact.
  destruct (negb (truthy (contact !! "name"))); [by intros [=]|].
  intros E. apply createContact_inv in E. cbv zeta in E.
  destruct E as (Hok & -> & -> & Hid & Hagent).
  destruct Hok as (_ & _ & Hfresh & _). rewrite Hid in Hfresh.
  match type of Hid with ?r !! _ = _ => set (row := r) in * end.
  exists (JNum (contact_seq (store w))).
  assert (∀ b, filter (matches (by_key b (JNum (contact_seq (store w)))))
                 (contact_rows (store (step
                    (after_insert crm_contacts
                       (contact_payload agentId contact (entered_at contact w))
                       (server_clock (stamped contact w) (tick (stamped contact w)))
                       (store w))
                    [contact_insert (contact_payload agentId contact (entered_at contact w))]
                    (stamped contact w))))
               = if decide (b = agentId) then [row] else []) as Hhit.
  { intros b. rewrite filter_by_key by done.
    change (contact_rows (store (step ?s ?l ?w0))) with (rows crm_contacts s).
    rewrite rows_after_insert. fold row.
    rewrite (filter_owned_snoc _ _ _ _ Hfresh Hid).
    destruct (decide (b = agentId)) as [->|Hb].
    - by rewrite decide_True.
    - rewrite decide_False; [done|]. rewrite Hagent. intros [= ->]. done. }
  split_and!.
  - apply present_lookup; [reflexivity|exact Hid].
  - rewrite getContact_run, Hhit, decide_True by reflexivity. cbn [fst].
    reflexivity.
  - rewrite getContact_run. reflexivity.
  - intros other Hother. rewrite getContact_run, Hhit, decide_False by exact Hother.
    reflexivity.
Qed.

Lemma createContact_getContact_witness :
  ∃ id,
    returned ∅ (CRM.createContact "acme" eve fresh) !! "id" = Some id ∧
    (CRM.getContact "acme" id (after (CRM.createContact "acme" eve) fresh)).1
    = Return (returned ∅ (CRM.createContact "acme" eve fresh)).
Proof.
  assert (returns (CRM.createContact "acme" eve fresh) = true) as E
    by (vm_compute; reflexivity).
  apply (returns_eq ∅) in E.
  destruct (createContact_getContact "acme" eve fresh _ _ E) as (id & H1 & H2 & _).
  exists id. split; [exact H1|exact H2].
Defined.



(** X3. listStages is a read: it returns the agent's stage rows, all of
    them and no others, in ascending position, and leaves the store alone. *)
Theorem listStages_own_sorted agentId w :
  ∃ l w',
    CRM.listStages agentId w = (Return l, w') ∧
    store w' = store w ∧
    l ≡ₚ filter (of_agent agentId) (stage_rows (store w)) ∧
    StronglySorted (row_le "position" true) l.
Proof.
  unfold CRM.listStages. rewrite listStages_run. eexists _, _.
  split; [reflexivity|]. split; [reflexivity|]. split.
  - unfold stages_of. apply merge_sort_Permutation.
  - unfold stages_of. apply StronglySorted_merge_sort; apply _.
Qed.

Lemma listStages_own_sorted_witness :
  ∃ l w',
    CRM.listStages "acme" acme_stages = (Return l, w') ∧
    store w' = store acme_stages ∧
    l ≡ₚ filter (of_agent "acme") (stage_rows (store acme_stages)) ∧
    StronglySorted (row_le "position" true) l.
Proof. exact (listStages_own_sorted "acme" acme_stages). Defined.

(** ** Listing contacts *)

Lemma listContacts_query a options :
  DB.listContacts a options = (await (contacts_query a options) ≫= data_or_throw).
Proof. reflexivity. Qed.

Lemma selects_where a f q : selects a q → selects a (Q.where_ f q).
Proof.
  intros (?&?&?&?&?&?&fs&Hfs). split_and!; try assumption.
  exists (fs ++ [f]). simpl. by rewrite Hfs.
Qed.

Lemma selects_if_truthy a v c q :
  selects a q → selects a (DB.if_truthy v (Q.eq c) q).
Proof.
  intros H. unfold DB.if_truthy. destruct v as [x|]; [|exact H].
  destruct (truthy (Some x)); [|exact H]. by apply selects_where.
Qed.

Lemma selects_contact_filters a options q :
  selects a q → selects a (contact_filters options q).
Proof.
  intros H. unfold contact_filters. cbv zeta.
  assert (selects a (DB.if_truthy (options !! "stageId") (Q.eq "stage_id") q)) as H1
    by by apply selects_if_truthy.
  set (q1 := DB.if_truthy (options !! "stageId") (Q.eq "stage_id") q) in *.
  assert (selects a (match options !! "isActive" with
                     | Some v => Q.eq "is_active" v q1
                     | None => q1
                     end)) as H2.
  { destruct (options !! "isActive"); [by apply selects_where|exact H1]. }
  set (q2 := match options !! "isActive" with
             | Some v => Q.eq "is_active" v q1
             | None => q1
             end) in *.
  assert (selects a (DB.if_truthy (options !! "assignedTo") (Q.eq "assigned_to") q2)) as H3
    by by apply selects_if_truthy.
  destruct (options !! "tags") as [[| | | | |[|t ts]|]|]; try exact H3.
  by apply selects_where.
Qed.

Lemma selects_paged a options q : selects a q → selects a (paged options q).
Proof.
  intros H. unfold paged. cbv zeta.
  set (q1 := match options !! "limit" with
             | Some (JNum n) => if n =? 0 then q else Q.limit n q
             | _ => q
             end).
  assert (selects a q1) as H1.
  { unfold q1. destruct (options !! "limit") as [[| |n| | | |]|]; try exact H.
    destruct (n =? 0); [exact H|]. exact H. }
  destruct (options !! "offset") as [[| |o| | | |]|]; try exact H1.
  destruct (o =? 0); [exact H1|]. exact H1.
Qed.

Lemma selects_contacts_query a options : selects a (contacts_query a options).
Proof.
  unfold contacts_query. apply selects_paged.
  assert (selects a (contact_filters options
            (Q.from crm_contacts |> Q.select Q.star Q.with_stage
             |> Q.eq "agent_id" (JStr a)))) as H.
  { apply selects_contact_filters. split_and!; try reflexivity. by exists []. }
  exact H.
Qed.

Lemma window_elem q (l : list Obj) r : r ∈ window q l → r ∈ l.
Proof.
  unfold window. intros H.
  assert (r ∈ match q_offset q with Some o => drop (Z.to_nat o) l | None => l end) as H1.
  { destruct (q_limit q); [|exact H].
    eapply elem_of_sublist; [exact H|apply sublist_take]. }
  destruct (q_offset q); [|exact H1].
  eapply elem_of_sublist; [exact H1|apply sublist_drop].
Qed.

Lemma ordered_elem q (l : list Obj) r : r ∈ ordered q l → r ∈ l.
Proof.
  unfold ordered. destruct (q_order q) as [[c asc]|]; [|done].
  by rewrite merge_sort_Permutation.
Qed.

Lemma listContacts_run a options w :
  DB.listContacts a options w
  = (Return (present (contacts_query a options) (store w) <$>
             window (contacts_query a options)
               (ordered (contacts_query a options)
                  (filter (matches (q_filters (contacts_query a options)))
                     (contact_rows (store w))))),
     step (store w) [contacts_query a options] w).
Proof.
  rewrite listContacts_query, bind_run. unfold await. cbv beta iota zeta.
  destruct (selects_contacts_query a options) as (Hf & Hv & Hr & Hs & _).
  rewrite exec_select by assumption. rewrite Hf. reflexivity.
Qed.








(** ** Pages of contacts *)










(** ** The filters of listContacts *)

Lemma in_where f g q : f ∈ q_filters q → f ∈ q_filters (Q.where_ g q).
Proof. intros H. cbn [q_filters Q.where_]. apply elem_of_app. by left. Qed.

Lemma in_where_new g q : g ∈ q_filters (Q.where_ g q).
Proof. cbn [q_filters Q.where_]. apply elem_of_app. right. left. Qed.

Lemma in_if_truthy f v c q :
  f ∈ q_filters q → f ∈ q_filters (DB.if_truthy v (Q.eq c) q).
Proof.
  intros H. unfold DB.if_truthy. destruct v as [x|]; [|exact H].
  destruct (truthy (Some x)); [|exact H]. by apply in_where.
Qed.

Lemma in_if_truthy_new v c q :
  truthy (Some v) = true → Eq c v ∈ q_filters (DB.if_truthy (Some v) (Q.eq c) q).
Proof. intros H. unfold DB.if_truthy. rewrite H. apply in_where_new. Qed.

Lemma q_filters_paged options q : q_filters (paged options q) = q_filters q.
Proof.
  unfold paged. cbv zeta.
  destruct (options !! "offset") as [[| |o| | | |]|];
    try destruct (o =? 0);
    destruct (options !! "limit") as [[| |n| | | |]|];
    try destruct (n =? 0); reflexivity.
Qed.

(** The filters that the options name are in the request. *)
Lemma contact_filters_named options q :
  (∀ v, options !! "stageId" = Some v → truthy (Some v) = true →
        Eq "stage_id" v ∈ q_filters (contact_filters options q)) ∧
  (∀ v, options !! "isActive" = Some v →
        Eq "is_active" v ∈ q_filters (contact_filters options q)) ∧
  (∀ v, options !! "assignedTo" = Some v → truthy (Some v) = true →
        Eq "assigned_to" v ∈ q_filters (contact_filters options q)).
Proof.
  unfold contact_filters. cbv zeta.
  set (q1 := DB.if_truthy (options !! "stageId") (Q.eq "stage_id") q).
  set (q2 := match options !! "isActive" with
             | Some v => Q.eq "is_active" v q1
             | None => q1
             end).
  set (q3 := DB.if_truthy (options !! "assignedTo") (Q.eq "assigned_to") q2).
  assert (∀ f, f ∈ q_filters q1 → f ∈ q_filters q2) as H12.
  { intros f Hf. unfold q2. destruct (options !! "isActive"); [by apply in_where|exact Hf]. }
  assert (∀ f, f ∈ q_filters q2 → f ∈ q_filters q3) as H23.
  { intros f Hf. by apply in_if_truthy. }
  assert (∀ f, f ∈ q_filters q3 →
               f ∈ q_filters (match options !! "tags" with
                              | Some (JArr (t :: ts)) => Q.overlaps "tags" (t :: ts) q3
                              | _ => q3
                              end)) as H34.
  { intros f Hf. destruct (options !! "tags") as [[| | | | |[|t ts]|]|]; try exact Hf.
    by apply in_where. }
  split_and!.
  - intros v Hv Ht. apply H34, H23, H12. unfold q1. rewrite Hv. by apply in_if_truthy_new.
  - intros v Hv. apply H34, H23. unfold q2. rewrite Hv. apply in_where_new.
  - intros v Hv Ht. apply H34. unfold q3. rewrite Hv. by apply in_if_truthy_new.
Qed.

(** X7. listContacts honours its filters: every contact it returns is in
    the stage, has the activity flag and has the assignee that the options
    name. *)
Theorem listContacts_filters agentId options w l w' :
  CRM.listContacts agentId options w = (Return l, w') →
  (∀ v, options !! "stageId" = Some v → truthy (Some v) = true →
        Forall (λ c : Obj, c !! "stage_id" = Some v) l) ∧
  (∀ v, options !! "isActive" = Some v →
        Forall (λ c : Obj, c !! "is_active" = Some v) l) ∧
  (∀ v, options !! "assignedTo" = Some v → truthy (Some v) = true →
        Forall (λ c : Obj, c !! "assigned_to" = Some v) l).
Proof.
  unfold CRM.listContacts. rewrite listContacts_run. intros [= <- _].
  destruct (selects_contacts_query agentId options) as (_ & _ & _ & _ & Hc & _).
  assert (∀ c v, Eq c v ∈ q_filters (contacts_query agentId options) →
            Forall (λ x : Obj, x !! c = Some v)
              (present (contacts_query agentId options) (store w) <$>
               window (contacts_query agentId options)
                 (ordered (contacts_query agentId options)
                    (filter (matches (q_filters (contacts_query agentId options)))
                       (contact_rows (store w)))))) as Hall.
  { intros c v Hin. apply Forall_forall. intros x (r & -> & Hr)%list_elem_of_fmap.
    apply window_elem, ordered_elem, list_elem_of_filter in Hr as [Hm _].
    unfold matches in Hm. rewrite Forall_forall in Hm. destruct (Hm _ Hin) as [_ Hr].
    by apply present_lookup. }
  assert (∀ f, f ∈ q_filters (contact_filters options
                 (Q.from crm_contacts |> Q.select Q.star Q.with_stage
                  |> Q.eq "agent_id" (JStr agentId))) →
               f ∈ q_filters (contacts_query agentId options)) as Hq.
  { intros f Hf. unfold contacts_query. by rewrite q_filters_paged. }
  destruct (contact_filters_named options
              (Q.from crm_contacts |> Q.select Q.star Q.with_stage
               |> Q.eq "agent_id" (JStr agentId))) as (H1 & H2 & H3).
  split_and!.
  - intros v Hv Ht. apply Hall, Hq. by apply H1.
  - intros v Hv. apply Hall, Hq. by apply H2.
  - intros v Hv Ht. apply Hall, Hq. by apply H3.
Qed.

Lemma listContacts_filters_witness :
  active_only !! "isActive" = Some (JBool true) ∧
  Forall (λ c : Obj, c !! "is_active" = Some (JBool true))
    (returned [] (CRM.listContacts "acme" active_only two_contacts)).
Proof.
  assert (active_only !! "isActive" = Some (JBool true)) as H by reflexivity.
  split; [exact H|].
  assert (returns (CRM.listContacts "acme" active_only two_contacts) = true) as E
    by (vm_compute; reflexivity).
  apply (returns_eq []) in E.
  exact (proj1 (proj2 (listContacts_filters "acme" active_only two_contacts _ _ E)) _ H).
Defined.

(** ** What updateContact leaves alone *)

Lemma fieldMap_fixed c :
  c ∈ fixed_columns → ∀ k, DB.fieldMap !! k ≠ Some c.
Proof.
  intros Hc k Hk.
  assert (map_Forall (λ _ v, v ∉ fixed_columns) DB.fieldMap) as H.
  { apply (bool_decide_unpack _). vm_compute. reflexivity. }
  by apply H in Hk.
Qed.

Lemma contact_changes_fixed updates now c :
  c ∈ fixed_columns → contact_changes updates now !! c = None.
Proof.
  intros Hc. unfold contact_changes.
  rewrite map_fields_other by by apply fieldMap_fixed.
  apply lookup_singleton_ne. intros <-.
  revert Hc. apply (bool_decide_unpack _). vm_compute. reflexivity.
Qed.

Lemma kept_refl a id fixed (l : list Obj) : kept a id fixed l l.
Proof. apply Forall_Forall2_diag, Forall_forall. intros r _. split; done. Qed.

Lemma kept_rewritten a id fixed (changes : Obj) (l : list Obj) :
  (∀ c, c ∈ fixed → changes !! c = None) →
  kept a id fixed l ((λ r, if decide (owned a id r) then changes ∪ r else r) <$> l).
Proof.
  intros Hch. apply Forall2_fmap_r, Forall_Forall2_diag, Forall_forall.
  intros r _. unfold compose. cbv beta. case_decide as Hr.
  - split; [done|]. intros c Hc. rewrite lookup_union_r; [reflexivity|]. by apply Hch.
  - split; done.
Qed.

(** X8. updateContact changes at most the agent's contact of that id, and
    of that contact neither the id, nor the owner, nor the creation time,
    nor the time it entered its stage, even when it changes the stage; the
    other contacts and the other tables stay as they were, whether the
    call succeeds or fails. *)
Theorem updateContact_frame agentId id updates w :
  let s' := store (CRM.updateContact agentId id updates w).2 in
  kept agentId id fixed_columns (contact_rows (store w)) (contact_rows s') ∧
  stage_rows s' = stage_rows (store w) ∧
  interaction_rows s' = interaction_rows (store w) ∧
  task_rows s' = task_rows (store w).
Proof.
  unfold CRM.updateContact.
  destruct (DB.updateContact agentId id updates w) as [[c|e] w'] eqn:E; cbn [snd].
  - apply updateContact_inv in E. cbv zeta in E.
    destruct E as (old & _ & _ & -> & _).
    split_and!; [|reflexivity..].
    change (contact_rows (store (step ?s ?l ?w0))) with (rows crm_contacts s).
    rewrite rows_set_rows. unfold rewritten.
    apply kept_rewritten. intros col Hcol. by apply contact_changes_fixed.
  - apply updateContact_fail in E as [-> _].
    split_and!; [apply kept_refl|reflexivity..].
Qed.

Lemma updateContact_frame_witness :
  let s' := store (CRM.updateContact "acme" (JNum 1) ∅ two_contacts).2 in
  kept "acme" (JNum 1) fixed_columns (contact_rows (store two_contacts)) (contact_rows s').
Proof. exact (proj1 (updateContact_frame "acme" (JNum 1) ∅ two_contacts)). Defined.

(** ** Losing and reactivating a contact *)

Lemma updateContact_hit a id updates w r :
  id ≠ JNull → filter (owned a id) (contact_rows (store w)) = [r] →
  let changes := contact_changes updates (JDate (client_clock w (tick w))) in
  let s' := set_rows crm_contacts
              (rewritten a id changes (contact_rows (store w))) (store w) in
  update_ok crm_contacts (by_key a id) changes (store w) →
  DB.updateContact a id updates w
  = (Return (present (contact_update a id changes) s' (changes ∪ r)),
     step s' [contact_update a id changes] (step (store w) [] w)).
Proof.
  intros Hid Hhit changes s' Hok.
  unfold DB.updateContact. rewrite bind_run. unfold new_Date at 1. cbv beta iota.
  rewrite bind_run.
  rewrite (await_single_update _ _ crm_contacts _ _ _ _ r Hid); [reflexivity|exact Hhit|exact Hok].
Qed.

Lemma embedded_same s1 s2 e (r1 r2 : Obj) :
  rows (e_table e) s1 = rows (e_table e) s2 →
  r1 !! e_via e = r2 !! e_via e →
  embedded s1 e r1 = embedded s2 e r2.
Proof. intros Hs Hr. unfold embedded, find_id. by rewrite Hs, Hr. Qed.

Lemma lost_changes reason now :
  contact_changes
    (literal [("isActive", Some (JBool false)); ("lostReason", Some reason)]) now
  = {[ "is_active" := JBool false; "lost_reason" := reason; "updated_at" := now ]}.
Proof. apply map_eq. intros k. vm_compute. reflexivity. Qed.

Lemma active_changes now :
  contact_changes
    (literal [("isActive", Some (JBool true)); ("lostReason", Some JNull)]) now
  = {[ "is_active" := JBool true; "lost_reason" := JNull; "updated_at" := now ]}.
Proof. apply map_eq. intros k. vm_compute. reflexivity. Qed.

Lemma reactivate_ok a id t s :
  update_ok crm_contacts (by_key a id)
    {[ "is_active" := JBool true; "lost_reason" := JNull; "updated_at" := JDate t ]} s.
Proof.
  split_and!; [reflexivity|reflexivity|by intros [? [=]]|reflexivity].
Qed.

(** X9. markLost clears [is_active] and records the reason; reactivate,
    which then succeeds, sets [is_active] again and clears the reason, and
    changes nothing else of the contact but [updated_at]. *)
Theorem markLost_reactivate agentId id reason w c w' :
  CRM.markLost agentId id (JStr reason) w = (Return c, w') →
  c !! "is_active" = Some (JBool false) ∧
  c !! "lost_reason" = Some (JStr reason) ∧
  ∃ c2 w2,
    CRM.reactivate agentId id w' = (Return c2, w2) ∧
    c2 !! "is_active" = Some (JBool true) ∧
    c2 !! "lost_reason" = Some JNull ∧
    ∀ col, col ∉ ["is_active"; "lost_reason"; "updated_at"] → c2 !! col = c !! col.
Proof.
  unfold CRM.markLost, CRM.reactivate. intros E.
  apply updateContact_inv in E. cbv zeta in E. rewrite lost_changes in E.
  destruct E as (old & Hid & Hhit & -> & ->).
  set (t1 := JDate (client_clock w (tick w))) in *.
  set (ch1 := ({[ "is_active" := JBool false; "lost_reason" := JStr reason;
                  "updated_at" := t1 ]} : Obj)) in *.
  set (s1 := set_rows crm_contacts (rewritten agentId id ch1 (contact_rows (store w)))
               (store w)) in *.
  set (w1 := step s1 [contact_update agentId id ch1] (step (store w) [] w)).
  assert (filter (owned agentId id) (contact_rows (store w1)) = [ch1 ∪ old]) as Hhit1.
  { change (contact_rows (store w1)) with (rows crm_contacts s1).
    unfold s1. rewrite rows_set_rows. unfold rewritten.
    apply filter_owned_updated; [exact Hhit|reflexivity..]. }
  split; [apply present_lookup; [reflexivity|]; by apply lookup_union_Some_l|].
  split; [apply present_lookup; [reflexivity|]; by apply lookup_union_Some_l|].
  pose proof (updateContact_hit agentId id
                (literal [("isActive", Some (JBool true)); ("lostReason", Some JNull)])
                w1 _ Hid Hhit1) as E2.
  cbv zeta in E2. rewrite active_changes in E2.
  specialize (E2 (reactivate_ok _ _ _ _)).
  eexists _, _. split; [exact E2|].
  split; [apply present_lookup; [reflexivity|]; by apply lookup_union_Some_l|].
  split; [apply present_lookup; [reflexivity|]; by apply lookup_union_Some_l|].
  intros col Hcol. unfold present. cbn [q_columns q_embed contact_update Q.single Q.select
    Q.eq Q.where_ Q.update Q.with_verb Q.from project Q.star Q.with_stage].
  rewrite !(lookup_union _ (embedded _ _ _)).
  rewrite (embedded_same _ s1 _ _ (ch1 ∪ old));
    [|reflexivity|cbn [e_via]; by rewrite lookup_union_r].
  f_equal. apply lookup_union_r.
  apply not_elem_of_cons in Hcol as [H1 Hcol].
  apply not_elem_of_cons in Hcol as [H2 Hcol].
  apply not_elem_of_cons in Hcol as [H3 _].
  rewrite !lookup_insert_ne by done. by apply lookup_singleton_ne.
Qed.

Lemma markLost_reactivate_witness :
  let lost := CRM.markLost "acme" (JNum 1) (JStr "no budget") two_contacts in
  returned ∅ lost !! "is_active" = Some (JBool false) ∧
  ∃ c2 w2,
    CRM.reactivate "acme" (JNum 1) (after (CRM.markLost "acme" (JNum 1) (JStr "no budget"))
                                          two_contacts)
    = (Return c2, w2) ∧
    c2 !! "is_active" = Some (JBool true) ∧ c2 !! "lost_reason" = Some JNull.
Proof.
  intros lost.
  assert (returns (CRM.markLost "acme" (JNum 1) (JStr "no budget") two_contacts) = true) as E
    by (vm_compute; reflexivity).
  apply (returns_eq ∅) in E.
  destruct (markLost_reactivate "acme" (JNum 1) "no budget" two_contacts _ _ E)
    as (H1 & _ & c2 & w2 & E2 & H2 & H3 & _).
  split; [exact H1|]. exists c2, w2. split; [exact E2|]. split; [exact H2|exact H3].
Defined.

(** ** What createContact stores *)

Lemma strict_eq_false v :
  strict_eq v (Some (JBool false)) = true ↔ v = Some (JBool false).
Proof.
  split; [|by intros ->].
  destruct v as [[|[]| | | | |]|]; try done.
Qed.

(** X10. Whatever the input says, a created contact belongs to the agent;
    it is inactive only if [isActive] is exactly [false]; without a stage
    it has neither a stage nor a stage-entry time (the column default
    [now()] is overridden by null), with a stage its stage-entry time is
    the caller's clock; its creation and update times are the server's
    clock. *)
Theorem createContact_stamps agentId contact w c w' :
  CRM.createContact agentId contact w = (Return c, w') →
  c !! "agent_id" = Some (JStr agentId) ∧
  (c !! "is_active" = Some (JBool false) ↔ contact !! "isActive" = Some (JBool false)) ∧
  (c !! "is_active" = Some (JBool true) ↔ contact !! "isActive" ≠ Some (JBool false)) ∧
  (if truthy (contact !! "stageId")
   then c !! "stage_id" = contact !! "stageId" ∧
        c !! "stage_entered_at" = Some (JDate (client_clock w (tick w))) ∧
        c !! "created_at" = Some (JDate (server_clock w (S (tick w)))) ∧
        c !! "updated_at" = Some (JDate (server_clock w (S (tick w))))
   else c !! "stage_id" = Some JNull ∧
        c !! "stage_entered_at" = Some JNull ∧
        c !! "created_at" = Some (JDate (server_clock w (tick w))) ∧
        c !! "updated_at" = Some (JDate (server_clock w (tick w)))).
Proof.
  unfold CRM.createContact.
  destruct (negb (truthy (contact !! "name"))); [by intros [=]|].
  intros E. apply createContact_inv in E. cbv zeta in E.
  destruct E as (_ & _ & -> & _ & Hagent).
  set (payload := contact_payload agentId contact (entered_at contact w)).
  set (now := server_clock (stamped contact w) (tick (stamped contact w))).
  assert (∀ k v, inserted_row crm_contacts payload now (store w) !! k = Some v →
            present (contact_insert payload)
              (after_insert crm_contacts payload now (store w))
              (inserted_row crm_contacts payload now (store w)) !! k = Some v) as Hp.
  { intros k v Hk. by apply present_lookup. }
  assert (inserted_row crm_contacts payload now (store w) !! "is_active"
          = Some (JBool (negb (strict_eq (contact !! "isActive") (Some (JBool false))))))
    as Hactive.
  { apply lookup_union_Some_l. unfold payload, contact_payload. by rewrite literal_lookup. }
  assert (inserted_row crm_contacts payload now (store w) !! "stage_id"
          = Some (or_else (contact !! "stageId") JNull)) as Hstage.
  { apply lookup_union_Some_l. unfold payload, contact_payload. by rewrite literal_lookup. }
  assert (inserted_row crm_contacts payload now (store w) !! "stage_entered_at"
          = Some (entered_at contact w)) as Hentered.
  { apply lookup_union_Some_l. unfold payload, contact_payload. by rewrite literal_lookup. }
  assert (inserted_row crm_contacts payload now (store w) !! "created_at" = Some (JDate now))
    as Hcreated.
  { unfold inserted_row. rewrite lookup_union_r; [reflexivity|].
    unfold payload, contact_payload. by rewrite literal_lookup. }
  assert (inserted_row crm_contacts payload now (store w) !! "updated_at" = Some (JDate now))
    as Hupdated.
  { unfold inserted_row. rewrite lookup_union_r; [reflexivity|].
    unfold payload, contact_payload. by rewrite literal_lookup. }
  split; [by apply Hp|].
  rewrite (Hp _ _ Hactive), (Hp _ _ Hstage), (Hp _ _ Hentered),
    (Hp _ _ Hcreated), (Hp _ _ Hupdated).
  clear Hp Hactive Hstage Hentered Hcreated Hupdated Hagent.
  split_and!.
  - rewrite <- (strict_eq_false (contact !! "isActive")).
    destruct (strict_eq (contact !! "isActive") (Some (JBool false))); cbn;
      split; intros H; try done; try congruence.
  - rewrite <- (strict_eq_false (contact !! "isActive")).
    destruct (strict_eq (contact !! "isActive") (Some (JBool false))); cbn;
      split; intros H; try done; try congruence.
  - unfold now, stamped, entered_at, or_else.
    destruct (contact !! "stageId") as [x|] eqn:Hx; [|by cbn].
    destruct (truthy (Some x)); done.
Qed.

Lemma createContact_stamps_witness :
  returned ∅ (CRM.createContact "acme" eve fresh) !! "agent_id" = Some (JStr "acme") ∧
  returned ∅ (CRM.createContact "acme" eve fresh) !! "is_active" = Some (JBool true).
Proof.
  assert (returns (CRM.createContact "acme" eve fresh) = true) as E
    by (vm_compute; reflexivity).
  apply (returns_eq ∅) in E.
  destruct (createContact_stamps "acme" eve fresh _ _ E) as (H1 & _ & H2 & _).
  split; [exact H1|]. apply H2. discriminate.
Defined.

(** ** Deleting *)

















(** ** Stage references *)






(** ** Creating a stage *)

Lemma createStage_db a stage w n p :
  stage !! "name" = Some (JStr n) →
  stage !! "position" = Some (JNum p) →
  (stage !! "color" = None ∨ ∃ c, stage !! "color" = Some (JStr c)) →
  sequence_ahead crm_stages (store w) →
  let payload := stage_payload a stage in
  let now := server_clock w (tick w) in
  let row := inserted_row crm_stages payload now (store w) in
  DB.createStage a stage w
  = (Return row, step (after_insert crm_stages payload now (store w)) [stage_insert payload] w) ∧
  row !! "id" = Some (JNum (stage_seq (store w))) ∧
  row !! "agent_id" = Some (JStr a) ∧
  row !! "name" = Some (JStr n) ∧
  row !! "position" = Some (JNum p).
Proof.
  intros Hn Hp Hc Hseq payload now row.
  assert (row !! "id" = Some (JNum (stage_seq (store w)))) as Hid.
  { unfold row, inserted_row, payload, stage_payload.
    rewrite lookup_union_r; [reflexivity|]. by rewrite literal_lookup, Hn, Hp. }
  assert (insert_ok crm_stages payload now (store w)) as Hok.
  { unfold payload, stage_payload. rewrite Hn, Hp.
    destruct Hc as [Hc|[c Hc]]; rewrite Hc.
    - split_and!; [reflexivity|reflexivity| |reflexivity].
      change (inserted_row _ _ _ _ !! "id") with (Some (JNum (stage_seq (store w)))).
      by apply (sequence_ahead_fresh crm_stages).
    - unfold or_else, truthy. destruct (negb (String.eqb c ""));
        (split_and!; [reflexivity|reflexivity| |reflexivity]);
        change (inserted_row _ _ _ _ !! "id") with (Some (JNum (stage_seq (store w))));
        by apply (sequence_ahead_fresh crm_stages). }
  split_and!.
  - unfold DB.createStage. rewrite bind_run. fold (stage_payload a stage). fold payload.
    rewrite await_single_insert by exact Hok.
    unfold data_or_throw, mret, M_ret. rewrite present_plain by reflexivity. reflexivity.
  - exact Hid.
  - apply lookup_union_Some_l. unfold payload, stage_payload. by rewrite literal_lookup.
  - apply lookup_union_Some_l. unfold payload, stage_payload. by rewrite literal_lookup, Hn.
  - apply lookup_union_Some_l. unfold payload, stage_payload.
    by rewrite literal_lookup, Hn, Hp.
Qed.

(** X15. createStage without a position first lists the agent's stages and
    then inserts the stage at position (number of the agent's stages) + 1;
    the stages of other agents do not count. *)
Theorem createStage_auto_position agentId stage n w :
  stage !! "name" = Some (JStr n) → n ≠ "" →
  stage !! "position" = None →
  (stage !! "color" = None ∨ ∃ c, stage !! "color" = Some (JStr c)) →
  sequence_ahead crm_stages (store w) →
  ∃ row w' q,
    CRM.createStage agentId stage w = (Return row, w') ∧
    row !! "position"
    = Some (JNum (Z.of_nat (length (filter (of_agent agentId) (stage_rows (store w)))) + 1)) ∧
    row !! "name" = Some (JStr n) ∧
    row !! "agent_id" = Some (JStr agentId) ∧
    stage_rows (store w') = stage_rows (store w) ++ [row] ∧
    log w' = log w ++ [all_stages agentId; q] ∧ q_from q = crm_stages ∧
    ∃ payload, q_verb q = Insert payload.
Proof.
  intros Hn Hne Hp Hc Hseq. unfold CRM.createStage. rewrite Hn, Hp.
  replace (truthy (Some (JStr n))) with true
    by (simpl; symmetry; by apply negb_true_iff, String.eqb_neq).
  cbv beta iota. change (negb true) with false. cbv iota.
  rewrite bind_run, bind_run, listStages_run. unfold mret at 1, M_ret at 1. cbv beta iota.
  set (p := Z.of_nat (length (stages_of agentId (store w))) + 1).
  set (w1 := step (store w) [all_stages agentId] w).
  destruct (createStage_db agentId (<["position" := JNum p]> stage) w1 n p)
    as (E & Hid & Ha & Hname & Hpos).
  { by rewrite lookup_insert_ne. }
  { by rewrite lookup_insert_eq. }
  { rewrite lookup_insert_ne by done. exact Hc. }
  { exact Hseq. }
  eexists _, _, _. split; [exact E|]. split_and!.
  - rewrite Hpos. unfold p, stages_of. by rewrite merge_sort_Permutation.
  - exact Hname.
  - exact Ha.
  - change (stage_rows (store (step ?s ?l ?w0))) with (rows crm_stages s).
    by rewrite rows_after_insert.
  - cbn [log step w1]. rewrite <- app_assoc. reflexivity.
  - reflexivity.
  - eexists. reflexivity.
Qed.

Lemma createStage_auto_position_witness :
  let stage : Obj := literal [("name", Some (JStr "Lead"))] in
  sequence_ahead crm_stages (store fresh) ∧
  ∃ row w',
    CRM.createStage "acme" stage fresh = (Return row, w') ∧
    row !! "position" = Some (JNum 1).
Proof.
  intros stage.
  assert (sequence_ahead crm_stages (store fresh)) as Hseq.
  { intros r n Hin. by apply elem_of_nil in Hin. }
  split; [exact Hseq|].
  destruct (createStage_auto_position "acme" stage "Lead" fresh
              eq_refl ltac:(discriminate) eq_refl (or_introl eq_refl) Hseq)
    as (row & w' & q & E & Hp & _).
  exists row, w'. split; [exact E|exact Hp].
Defined.

(** ** Required fields *)

Lemma await_single_world q w :
  (await_single q w).2
  = step (exec (Q.single q) (server_clock w (tick w)) (store w)).2 [Q.single q] w.
Proof. reflexivity. Qed.

Lemma then_data_or_throw_world {A} (m : M (Response A)) w :
  (∀ w0, ∃ r, (m w0).1 = Return r) →
  ((m ≫= data_or_throw) w).2 = (m w).2.
Proof.
  intros Hm. rewrite bind_run. destruct (Hm w) as [r Hr].
  destruct (m w) as [[r'|e] w']; [|done]. by destruct r'.
Qed.

Lemma await_single_returns q w : ∃ r, (await_single q w).1 = Return r.
Proof.
  unfold await_single. rewrite bind_run. unfold await. cbv beta iota zeta. eauto.
Qed.

(** X16. A missing or empty name or title is reported before anything is
    sent: createStage, createContact and addTask throw and leave the world
    as it was. With the field present, createContact and addTask send one
    insert, stamped with the agent's id. *)
Theorem required_fields_first agentId w :
  (∀ stage, truthy (stage !! "name") = false →
     CRM.createStage agentId stage w = (Throw (JsError "Stage name is required"), w)) ∧
  (∀ contact, truthy (contact !! "name") = false →
     CRM.createContact agentId contact w
     = (Throw (JsError "Contact name is required"), w)) ∧
  (∀ task, truthy (task !! "title") = false →
     CRM.addTask agentId task w = (Throw (JsError "Task title is required"), w)) ∧
  (∀ contact, truthy (contact !! "name") = true →
     ∃ payload,
       log (CRM.createContact agentId contact w).2 = log w ++ [contact_insert payload] ∧
       payload !! "agent_id" = Some (JStr agentId) ∧
       payload !! "name" = contact !! "name") ∧
  (∀ task, truthy (task !! "title") = true →
     ∃ payload,
       log (CRM.addTask agentId task w).2 = log w ++ [task_insert payload] ∧
       payload !! "agent_id" = Some (JStr agentId) ∧
       payload !! "title" = task !! "title").
Proof.
  split_and!.
  - intros stage H. unfold CRM.createStage. by rewrite H.
  - intros contact H. unfold CRM.createContact. by rewrite H.
  - intros task H. unfold CRM.addTask. by rewrite H.
  - intros contact H. unfold CRM.createContact. rewrite H. cbn [negb].
    exists (contact_payload agentId contact (entered_at contact w)). split_and!.
    + unfold DB.createContact, entered_at. rewrite bind_run.
      destruct (truthy (contact !! "stageId")).
      * unfold new_Date at 1. cbv beta iota.
        rewrite then_data_or_throw_world by (intros; apply await_single_returns).
        rewrite await_single_world. cbn [log step]. by rewrite app_nil_r.
      * unfold mret at 1, M_ret at 1. cbv beta iota.
        rewrite then_data_or_throw_world by (intros; apply await_single_returns).
        rewrite await_single_world. reflexivity.
    + unfold contact_payload. by rewrite literal_lookup.
    + unfold contact_payload. rewrite literal_lookup. cbn [assoc].
      rewrite decide_False, decide_True by done. by destruct (contact !! "name").
  - intros task H. unfold CRM.addTask. rewrite H. cbn [negb].
    exists (task_payload agentId task). split_and!.
    + unfold DB.addTask.
      rewrite then_data_or_throw_world by (intros; apply await_single_returns).
      rewrite await_single_world. reflexivity.
    + unfold task_payload. by rewrite literal_lookup.
    + unfold task_payload. rewrite literal_lookup. cbn [assoc].
      rewrite !decide_False, decide_True by done. by destruct (task !! "title").
Qed.

Lemma required_fields_first_witness :
  truthy ((∅ : Obj) !! "name") = false ∧
  CRM.createContact "acme" ∅ fresh
  = (Throw (JsError "Contact name is required"), fresh).
Proof.
  assert (truthy ((∅ : Obj) !! "name") = false) as H by reflexivity.
  split; [exact H|].
  exact (proj1 (proj2 (required_fields_first "acme" fresh)) ∅ H).
Defined.

(** ** A reorder that fails half way *)





(** ** References to rows that do not exist *)








(** ** What updateTask and updateInteraction leave alone *)

Lemma update_by_key_store a id t changes cols emb w :
  let s' := store (await_single (Q.from t |> Q.update changes |> Q.eq "id" id
                                 |> Q.eq "agent_id" (JStr a) |> Q.select cols emb) w).2 in
  s' = store w ∨
  s' = set_rows t ((λ r, if decide (owned a id r) then changes ∪ r else r)
                     <$> rows t (store w)) (store w).
Proof.
  cbv zeta. rewrite await_single_world. change (store (step ?s ?l ?w0)) with s.
  match goal with |- context [exec ?q ?n ?s] =>
    destruct (exec q n s) as [[l|e] s'] eqn:E end; cbn [snd].
  - eapply exec_update_inv in E; [|reflexivity..].
    destruct E as (old & Hhit & _ & -> & _). right.
    cbn [q_filters q_from Q.single Q.select Q.eq Q.where_ Q.update Q.with_verb Q.from app] in *.
    fold (by_key a id) in *.
    assert (id ≠ JNull) as Hid.
    { intros ->. by rewrite filter_by_key_null in Hhit. }
    by rewrite updated_by_key.
  - eapply exec_update_fail in E; [|reflexivity]. by left.
Qed.

Lemma taskFieldMap_fixed c :
  c ∈ fixed_task_columns → ∀ k, DB.taskFieldMap !! k ≠ Some c.
Proof.
  intros Hc k Hk.
  assert (map_Forall (λ _ v, v ∉ fixed_task_columns) DB.taskFieldMap) as H.
  { apply (bool_decide_unpack _). vm_compute. reflexivity. }
  by apply H in Hk.
Qed.

Lemma interactionFieldMap_fixed c :
  c ∈ fixed_interaction_columns → ∀ k, DB.interactionFieldMap !! k ≠ Some c.
Proof.
  intros Hc k Hk.
  assert (map_Forall (λ _ v, v ∉ fixed_interaction_columns) DB.interactionFieldMap) as H.
  { apply (bool_decide_unpack _). vm_compute. reflexivity. }
  by apply H in Hk.
Qed.

(** X19. updateTask can neither complete nor reopen a task, and
    updateInteraction can neither move an interaction to another contact
    nor change its author; neither changes the id, the owner or the
    creation time of its row, any other row, or any other table, whatever
    the keys of [updates] and whether the call succeeds or fails. *)
Theorem update_keeps_fixed_columns agentId id updates w :
  (let s' := store (CRM.updateTask agentId id updates w).2 in
   kept agentId id fixed_task_columns (task_rows (store w)) (task_rows s') ∧
   stage_rows s' = stage_rows (store w) ∧
   contact_rows s' = contact_rows (store w) ∧
   interaction_rows s' = interaction_rows (store w)) ∧
  (let s' := store (CRM.updateInteraction agentId id updates w).2 in
   kept agentId id fixed_interaction_columns
     (interaction_rows (store w)) (interaction_rows s') ∧
   stage_rows s' = stage_rows (store w) ∧
   contact_rows s' = contact_rows (store w) ∧
   task_rows s' = task_rows (store w)).
Proof.
  split; cbv zeta.
  - unfold CRM.updateTask, DB.updateTask. cbv zeta.
    rewrite then_data_or_throw_world by (intros; apply await_single_returns).
    destruct (update_by_key_store agentId id crm_tasks
                (DB.map_fields DB.taskFieldMap updates ∅) Q.star Q.with_contact w)
      as [-> | ->].
    + split_and!; [apply kept_refl|reflexivity..].
    + split_and!; [|reflexivity..].
      change (task_rows (set_rows crm_tasks ?l ?s)) with l.
      apply kept_rewritten. intros c Hc.
      rewrite map_fields_other by by apply taskFieldMap_fixed. apply lookup_empty.
  - unfold CRM.updateInteraction, DB.updateInteraction. cbv zeta.
    rewrite then_data_or_throw_world by (intros; apply await_single_returns).
    destruct (update_by_key_store agentId id crm_interactions
                (DB.map_fields DB.interactionFieldMap updates ∅) Q.star Q.with_contact w)
      as [-> | ->].
    + split_and!; [apply kept_refl|reflexivity..].
    + split_and!; [|reflexivity..].
      change (interaction_rows (set_rows crm_interactions ?l ?s)) with l.
      apply kept_rewritten. intros c Hc.
      rewrite map_fields_other by by apply interactionFieldMap_fixed. apply lookup_empty.
Qed.

Lemma update_keeps_fixed_columns_witness :
  let s' := store (CRM.updateTask "acme" (JNum 1) ∅ fresh).2 in
  kept "acme" (JNum 1) fixed_task_columns (task_rows (store fresh)) (task_rows s').
Proof. exact (proj1 (proj1 (update_keeps_fixed_columns "acme" (JNum 1) ∅ fresh))). Defined.

(** ** Writing by key needs a row of one's own *)




(** ** A lost contact and the pipeline *)







(** ** Listing interactions *)







(** ** Connecting *)

Lemma or_else_truthy v d : truthy (Some d) = true → truthy (Some (or_else v d)) = true.
Proof.
  intros Hd. unfold or_else. destruct v as [x|]; [|exact Hd].
  destruct (truthy (Some x)) eqn:Hx; [exact Hx|exact Hd].
Qed.

Lemma agent_of_cases config env :
  truthy (Some (agent_of config env)) = true ∧
  (truthy (config !! "agentId") = true → Some (agent_of config env) = config !! "agentId") ∧
  (truthy (config !! "agentId") = false →
   agent_of config env
   = match DB.CRM_AGENT_ID env with
     | Some a => if String.eqb a "" then JStr "default" else JStr a
     | None => JStr "default"
     end).
Proof.
  unfold agent_of, DB.or_undefined. split_and!.
  - by apply or_else_truthy.
  - intros H. rewrite H. unfold or_else. rewrite H. by destruct (config !! "agentId").
  - intros H. rewrite H. destruct (DB.CRM_AGENT_ID env) as [a|]; [|reflexivity].
    cbn [fmap option_fmap option_map or_else truthy]. by destruct (String.eqb a "").
Qed.

(** X23. createDatabase refuses to connect without a url and a key, looked
    up in the configuration and then in the environment, before it calls
    the client library. When it connects, the agent id it binds is the
    first non-empty one of [config.agentId], [CRM_AGENT_ID] and
    ['default'], so it is never empty, and the CRM object built on it
    records the same id. *)
Theorem createDatabase_agent {Client} (createClient : JsVal → JsVal → Exception + Client)
    config env :
  (truthy (url_of config env) = false ∨ truthy (key_of config env) = false →
   DB.createDatabase createClient config env
   = inl (JsError "SUPABASE_URL and SUPABASE_KEY are required")) ∧
  (∀ h, DB.createDatabase createClient config env = inr h →
        DB.h_agentId h = agent_of config env) ∧
  (∀ crm, CRM.new createClient config env = inr crm →
          CRM.this_agentId crm = DB.h_agentId (CRM.this_db crm)) ∧
  truthy (Some (agent_of config env)) = true ∧
  (truthy (config !! "agentId") = true → Some (agent_of config env) = config !! "agentId") ∧
  (truthy (config !! "agentId") = false →
   agent_of config env
   = match DB.CRM_AGENT_ID env with
     | Some a => if String.eqb a "" then JStr "default" else JStr a
     | None => JStr "default"
     end).
Proof.
  assert (∀ h, DB.createDatabase createClient config env = inr h →
               DB.h_agentId h = agent_of config env) as Hh.
  { intros h. unfold DB.createDatabase. cbv zeta.
    destruct (negb _ || negb _); [by intros [=]|].
    destruct (createClient _ _); [by intros [=]|]. by intros [= <-]. }
  split_and!.
  - intros H. unfold DB.createDatabase. cbv zeta. fold (url_of config env) (key_of config env).
    destruct H as [-> | ->]; [reflexivity|]. by rewrite orb_true_r.
  - exact Hh.
  - intros crm. unfold CRM.new.
    destruct (DB.createDatabase createClient config env) as [e|h] eqn:E; [by intros [=]|].
    intros [= <-]. cbn [CRM.this_agentId CRM.this_db]. by rewrite (Hh h).
  - apply agent_of_cases.
  - apply agent_of_cases.
  - apply agent_of_cases.
Qed.

Lemma createDatabase_agent_witness :
  truthy (url_of ∅ no_env) = false ∧
  DB.createDatabase connects ∅ no_env
  = inl (JsError "SUPABASE_URL and SUPABASE_KEY are required").
Proof.
  assert (truthy (url_of ∅ no_env) = false) as H by reflexivity.
  split; [exact H|].
  exact (proj1 (createDatabase_agent connects ∅ no_env) (or_introl H)).
Defined.

(** ** The command line *)

Lemma list_ind2 {A} (P : list A → Prop) :
  P [] → (∀ a, P [a]) → (∀ a b l, P l → P (b :: l) → P (a :: b :: l)) → ∀ l, P l.
Proof.
  intros H0 H1 H2 l. cut (P l ∧ ∀ a, P (a :: l)); [tauto|].
  induction l as [|b l [IH1 IH2]]; [by split|]. split; [apply IH2|].
  intros a. by apply H2.
Qed.

Lemma assign_lookup key v (opts : gmap string CLI.OptVal) k :
  CLI.assign key v opts !! k
  = if decide (key = "__proto__") then opts !! k
    else if decide (key = k) then Some v else opts !! k.
Proof.
  unfold CLI.assign. destruct (decide (key = "__proto__")); [reflexivity|].
  destruct (decide (key = k)) as [->|Hne].
  - apply lookup_insert_eq.
  - by apply lookup_insert_ne.
Qed.

Lemma parsed_nil opts : parsed [] opts opts [].
Proof.
  split; try done.
  - intros k v Hk. by left.
  - intros a Ha. by apply elem_of_nil in Ha.
Qed.

(** An argument without dashes is positional. *)
Lemma parsed_plain_arg a args opts opts' extra :
  CLI.dashed a = false →
  parsed args opts opts' extra → parsed (a :: args) opts opts' (a :: extra).
Proof.
  intros Ha [H1 H2 H3 H4 H5 H6]. split.
  - by constructor.
  - by constructor.
  - exact H3.
  - intros k v Hk. destruct (H4 k v Hk) as [?|(Hp & b & Hb & Hd & Hs & Hv)]; [by left|].
    right. split; [exact Hp|]. exists b. split_and!; [by right|done..|].
    destruct v; [|done]. destruct Hv as (?&?&?). split_and!; [done..|by right].
  - intros b [->|Hb]%elem_of_cons Hd Hp; [congruence|]. by apply H5.
  - intros [_ Hall]%Forall_cons. destruct (H6 Hall) as [-> ->]. done.
Qed.

(** A dashed argument that stands alone is a flag. *)
Lemma parsed_flag a args opts opts' extra :
  CLI.dashed a = true →
  parsed args (CLI.assign (CLI.slice2 a) CLI.Flag opts) opts' extra →
  parsed (a :: args) opts opts' extra.
Proof.
  intros Ha [H1 H2 H3 H4 H5 H6]. split.
  - exact H1.
  - by constructor.
  - intros k Hk. apply H3. rewrite assign_lookup.
    destruct (decide _); [done|]. destruct (decide _); [by eexists|done].
  - intros k v Hk. destruct (H4 k v Hk) as [Hold|(Hp & b & Hb & Hd & Hs & Hv)].
    + rewrite assign_lookup in Hold.
      destruct (decide (CLI.slice2 a = "__proto__")); [by left|].
      destruct (decide (CLI.slice2 a = k)) as [<-|]; [|by left].
      injection Hold as <-. right. split; [done|]. exists a.
      split_and!; [left|done..].
    + right. split; [exact Hp|]. exists b. split_and!; [by right|done..|].
      destruct v; [|done]. destruct Hv as (?&?&?). split_and!; [done..|by right].
  - intros b [->|Hb]%elem_of_cons Hd Hp; [|by apply H5].
    apply H3. rewrite assign_lookup, decide_False, decide_True by done. by eexists.
  - intros [Hna _]%Forall_cons. congruence.
Qed.

(** A dashed argument followed by a value takes it. *)
Lemma parsed_given a v args opts opts' extra :
  CLI.dashed a = true → v ≠ "" → CLI.dashed v = false →
  parsed args (CLI.assign (CLI.slice2 a) (CLI.Given v) opts) opts' extra →
  parsed (a :: v :: args) opts opts' extra.
Proof.
  intros Ha Hv Hvd [H1 H2 H3 H4 H5 H6]. split.
  - exact H1.
  - by do 2 constructor.
  - intros k Hk. apply H3. rewrite assign_lookup.
    destruct (decide _); [done|]. destruct (decide _); [by eexists|done].
  - intros k x Hk. destruct (H4 k x Hk) as [Hold|(Hp & b & Hb & Hd & Hs & Hx)].
    + rewrite assign_lookup in Hold.
      destruct (decide (CLI.slice2 a = "__proto__")); [by left|].
      destruct (decide (CLI.slice2 a = k)) as [<-|]; [|by left].
      injection Hold as <-. right. split; [done|]. exists a.
      split; [left|]. split; [exact Ha|]. split; [reflexivity|].
      split; [exact Hv|]. split; [exact Hvd|]. right. left.
    + right. split; [exact Hp|]. exists b. split_and!; [by do 2 right|done..|].
      destruct x; [|done]. destruct Hx as (?&?&?). split_and!; [done..|by do 2 right].
  - intros b [->|[->|Hb]%elem_of_cons]%elem_of_cons Hd Hp.
    + apply H3. rewrite assign_lookup, decide_False, decide_True by done. by eexists.
    + congruence.
    + by apply H5.
  - intros [Hna _]%Forall_cons. congruence.
Qed.

Lemma parse_cons a rest opts positional :
  CLI.parse (a :: rest) opts positional
  = if CLI.dashed a then
      match rest with
      | next :: rest' =>
          if negb (String.eqb next "") && negb (CLI.dashed next)
          then CLI.parse rest' (CLI.assign (CLI.slice2 a) (CLI.Given next) opts) positional
          else CLI.parse rest (CLI.assign (CLI.slice2 a) CLI.Flag opts) positional
      | [] => CLI.parse rest (CLI.assign (CLI.slice2 a) CLI.Flag opts) positional
      end
    else CLI.parse rest opts (positional ++ [a]).
Proof. reflexivity. Qed.

Lemma parse_parsed args :
  ∀ opts positional,
    ∃ extra, (CLI.parse args opts positional).2 = positional ++ extra ∧
             parsed args opts (CLI.parse args opts positional).1 extra.
Proof.
  induction args as [|a|a b l IH1 IH2] using list_ind2; intros opts positional.
  - exists []. split; [by rewrite app_nil_r|apply parsed_nil].
  - rewrite parse_cons. destruct (CLI.dashed a) eqn:Ha.
    + exists []. split; [by rewrite app_nil_r|].
      apply parsed_flag; [exact Ha|apply parsed_nil].
    + exists [a]. split; [reflexivity|].
      apply parsed_plain_arg; [exact Ha|apply parsed_nil].
  - rewrite parse_cons. destruct (CLI.dashed a) eqn:Ha.
    + destruct (negb (String.eqb b "") && negb (CLI.dashed b)) eqn:Hb.
      * apply andb_true_iff in Hb as [Hb1 Hb2].
        apply negb_true_iff in Hb1, Hb2. apply String.eqb_neq in Hb1.
        destruct (IH1 (CLI.assign (CLI.slice2 a) (CLI.Given b) opts) positional)
          as (extra & E & Hp).
        exists extra. split; [exact E|]. by apply parsed_given.
      * destruct (IH2 (CLI.assign (CLI.slice2 a) CLI.Flag opts) positional)
          as (extra & E & Hp).
        exists extra. split; [exact E|]. by apply parsed_flag.
    + destruct (IH2 opts (positional ++ [a])) as (extra & E & Hp).
      exists (a :: extra). split; [by rewrite E, <- app_assoc|].
      by apply parsed_plain_arg.
Qed.

(** X24. parseArgs accounts for every argument. The positional arguments
    are arguments without dashes, in their order. Every option comes from
    a dashed argument, named by what follows the dashes, and its value, if
    it has one, is the non-empty undashed argument after it; every dashed
    argument sets its option, except [--__proto__], which sets nothing.
    Without dashed arguments there are no options and every argument is
    positional. *)
Theorem parseArgs_accounts args :
  let opts := (CLI.parseArgs args).1 in
  let positional := (CLI.parseArgs args).2 in
  Forall (λ a, CLI.dashed a = false) positional ∧
  positional `sublist_of` args ∧
  (∀ k v, opts !! k = Some v →
     k ≠ "__proto__" ∧
     ∃ a, a ∈ args ∧ CLI.dashed a = true ∧ k = CLI.slice2 a ∧
          match v with
          | CLI.Given x => x ≠ "" ∧ CLI.dashed x = false ∧ x ∈ args
          | CLI.Flag => True
          end) ∧
  (∀ a, a ∈ args → CLI.dashed a = true → CLI.slice2 a ≠ "__proto__" →
     is_Some (opts !! CLI.slice2 a)) ∧
  (Forall (λ a, CLI.dashed a = false) args → opts = ∅ ∧ positional = args).
Proof.
  cbv zeta. unfold CLI.parseArgs.
  destruct (parse_parsed args ∅ []) as (extra & E & [H1 H2 H3 H4 H5 H6]).
  rewrite E. cbn [app]. split_and!.
  - exact H1.
  - exact H2.
  - intros k v Hk. destruct (H4 k v Hk) as [Hold|Hnew]; [by rewrite lookup_empty in Hold|].
    exact Hnew.
  - exact H5.
  - exact H6.
Qed.

Lemma parseArgs_accounts_witness :
  let args := ["list"; "--limit"; "5"; "--active"] in
  Forall (λ a, CLI.dashed a = false) (CLI.parseArgs args).2 ∧
  (CLI.parseArgs args).2 `sublist_of` args.
Proof.
  intros args.
  destruct (parseArgs_accounts args) as (H1 & H2 & _).
  split; [exact H1|exact H2].
Defined.

(** ** What is created is listed *)

Lemma createStage_db_inv a stage w row w' :
  DB.createStage a stage w = (Return row, w') →
  row !! "agent_id" = Some (JStr a) ∧
  stage_rows (store w') = stage_rows (store w) ++ [row].
Proof.
  unfold DB.createStage. rewrite bind_run.
  destruct (await_single _ _) as [[[x|e]|e] w1] eqn:E; [|by intros [=]..].
  intros [= <- <-]. apply await_single_insert_inv in E. cbv zeta in E.
  destruct E as (_ & -> & ->). rewrite present_plain by reflexivity. split.
  - apply lookup_union_Some_l. by rewrite literal_lookup.
  - change (stage_rows (store (step ?s ?l ?w0))) with (rows crm_stages s).
    by rewrite rows_after_insert.
Qed.

Lemma createStage_inv a stage w row w' :
  CRM.createStage a stage w = (Return row, w') →
  row !! "agent_id" = Some (JStr a) ∧
  stage_rows (store w') = stage_rows (store w) ++ [row].
Proof.
  unfold CRM.createStage.
  destruct (negb (truthy (stage !! "name"))); [by intros [=]|].
  rewrite bind_run. destruct (stage !! "position") as [p|].
  - unfold mret at 1, M_ret at 1. cbv beta iota. apply createStage_db_inv.
  - rewrite bind_run, listStages_run. unfold mret at 1, M_ret at 1. cbv beta iota.
    intros E. apply createStage_db_inv in E. exact E.
Qed.

(** X25. A stage that createStage returns is among the stages that
    listStages returns next. *)
Theorem created_stage_is_listed agentId stage w row w' :
  CRM.createStage agentId stage w = (Return row, w') →
  ∃ l w'', CRM.listStages agentId w' = (Return l, w'') ∧ row ∈ l.
Proof.
  intros E. apply createStage_inv in E as [Ha Hrows].
  unfold CRM.listStages. rewrite listStages_run. eexists _, _.
  split; [reflexivity|]. unfold stages_of.
  rewrite merge_sort_Permutation, Hrows. apply list_elem_of_filter.
  split; [exact Ha|]. apply elem_of_app. right. left.
Qed.

Lemma created_stage_is_listed_witness :
  let stage : Obj := literal [("name", Some (JStr "Lead"))] in
  ∃ l w'',
    returns (CRM.createStage "acme" stage fresh) = true ∧
    CRM.listStages "acme" (after (CRM.createStage "acme" stage) fresh) = (Return l, w'') ∧
    returned ∅ (CRM.createStage "acme" stage fresh) ∈ l.
Proof.
  intros stage.
  assert (returns (CRM.createStage "acme" stage fresh) = true) as E
    by (vm_compute; reflexivity).
  destruct (created_stage_is_listed "acme" stage fresh _ _ (returns_eq ∅ _ _ E))
    as (l & w'' & H1 & H2).
  exists l, w''. split_and!; [exact E|exact H1|exact H2].
Defined.

(** X26. A contact that createContact returns is among the contacts that
    listContacts returns next when no filter and no page are given. *)
Theorem created_contact_is_listed agentId contact w c w' :
  CRM.createContact agentId contact w = (Return c, w') →
  ∃ l w'', CRM.listContacts agentId ∅ w' = (Return l, w'') ∧ c ∈ l.
Proof.
  unfold CRM.createContact.
  destruct (negb (truthy (contact !! "name"))); [by intros [=]|].
  intros E. apply createContact_inv in E. cbv zeta in E.
  destruct E as (_ & -> & -> & _ & Hagent).
  unfold CRM.listContacts. rewrite listContacts_all. eexists _, _.
  split; [reflexivity|].
  apply list_elem_of_fmap. eexists. split; [reflexivity|].
  rewrite merge_sort_Permutation. apply list_elem_of_filter.
  split; [exact Hagent|].
  change (contact_rows (store (step ?s ?l ?w0))) with (rows crm_contacts s).
  rewrite rows_after_insert. apply elem_of_app. right. left.
Qed.

Lemma created_contact_is_listed_witness :
  ∃ l w'',
    returns (CRM.createContact "acme" eve fresh) = true ∧
    CRM.listContacts "acme" ∅ (after (CRM.createContact "acme" eve) fresh) = (Return l, w'') ∧
    returned ∅ (CRM.createContact "acme" eve fresh) ∈ l.
Proof.
  assert (returns (CRM.createContact "acme" eve fresh) = true) as E
    by (vm_compute; reflexivity).
  destruct (created_contact_is_listed "acme" eve fresh _ _ (returns_eq ∅ _ _ E))
    as (l & w'' & H1 & H2).
  exists l, w''. split_and!; [exact E|exact H1|exact H2].
Defined.

Lemma insertInteraction_full a interaction w data w1 :
  DB.insertInteraction a interaction w = (Return data, w1) →
  let payload := interaction_payload a interaction in
  let now := server_clock w (tick w) in
  let row := inserted_row crm_interactions payload now (store w) in
  let s1 := after_insert crm_interactions payload now (store w) in
  w1 = step s1 [interaction_insert payload] w ∧
  data = present (interaction_insert payload) s1 row ∧
  row !! "agent_id" = Some (JStr a).
Proof.
  unfold DB.insertInteraction. rewrite bind_run.
  destruct (await_single _ _) as [[[x|e]|e] w'] eqn:E; [|by intros [=]..].
  intros [= <- <-]. apply await_single_insert_inv in E. cbv zeta in E.
  destruct E as (_ & -> & ->). cbv zeta.
  split_and!; [unfold interaction_insert, interaction_payload; reflexivity..|].
  apply lookup_union_Some_l. unfold interaction_payload. by rewrite literal_lookup.
Qed.

Lemma touched_changes now now' :
  contact_changes {[ "lastContactAt" := now ]} now'
  = {[ "last_contact_at" := now; "updated_at" := now' ]}.
Proof. apply map_eq. intros k. vm_compute. reflexivity. Qed.

Lemma head_filter_fmap {A} (P : A → Prop) `{∀ x, Decision (P x)} (f : A → A) (l : list A) :
  (∀ x, P (f x) ↔ P x) →
  head (filter P (f <$> l)) = f <$> head (filter P l).
Proof.
  intros Hf. induction l as [|x l IH]; [reflexivity|].
  rewrite fmap_cons, !filter_cons.
  destruct (decide (P x)) as [Hx|Hx].
  - rewrite decide_True by by apply Hf. reflexivity.
  - rewrite decide_False by by rewrite Hf. exact IH.
Qed.

(** Rewriting contacts without touching [id], [name], [email] or
    [company] does not change what an interaction embeds. *)
Lemma embedded_contact_rewritten a cid (ch : Obj) s (r : Obj) :
  ch !! "id" = None → ch !! "name" = None → ch !! "email" = None →
  ch !! "company" = None →
  embedded (set_rows crm_contacts (rewritten a cid ch (contact_rows s)) s)
    {| e_table := crm_contacts; e_via := "contact_id";
       e_cols := ["name"; "email"; "company"] |} r
  = embedded s {| e_table := crm_contacts; e_via := "contact_id";
                  e_cols := ["name"; "email"; "company"] |} r.
Proof.
  intros Hid Hn He Hc. unfold embedded. cbn [e_table e_via e_cols].
  destruct (r !! "contact_id") as [v|]; [|reflexivity]. cbn [mbind option_bind].
  unfold find_id. rewrite rows_set_rows. unfold rewritten.
  change (rows crm_contacts s) with (contact_rows s).
  rewrite head_filter_fmap.
  2:{ intros x. case_decide; [|done]. by rewrite lookup_union_r. }
  destruct (head (filter _ (contact_rows s))) as [x|]; [|reflexivity].
  cbn [fmap option_fmap option_map]. case_decide; [|reflexivity].
  cbn [omap list_omap]. by rewrite !lookup_union_r.
Qed.

Lemma listed_after_touch a cid (ch : Obj) s1 payload (row : Obj) w3 :
  ch !! "id" = None → ch !! "name" = None → ch !! "email" = None →
  ch !! "company" = None →
  store w3 = set_rows crm_contacts (rewritten a cid ch (contact_rows s1)) s1 →
  row ∈ rows crm_interactions s1 →
  row !! "agent_id" = Some (JStr a) →
  ∃ l w'', CRM.listInteractions a ∅ w3 = (Return l, w'') ∧
    present (interaction_insert payload) s1 row ∈ l.
Proof.
  intros Hid Hn He Hc Hs Hrow Hagent.
  unfold CRM.listInteractions.
  change (DB.listInteractions a ∅)
    with (await (interactions_query a ∅) ≫= data_or_throw).
  rewrite bind_run. unfold await. cbv beta iota zeta.
  rewrite exec_select by reflexivity. eexists _, _. split; [reflexivity|].
  apply list_elem_of_fmap. exists row. rewrite Hs. split.
  - unfold present.
    change (q_columns (interaction_insert payload)) with (q_columns (interactions_query a ∅)).
    change (q_embed (interaction_insert payload)) with (q_embed (interactions_query a ∅)).
    change (q_embed (interactions_query a ∅)) with Q.with_contact.
    unfold Q.with_contact. cbv beta iota. f_equal. symmetry.
    by apply embedded_contact_rewritten.
  - unfold window, ordered.
    change (q_limit (interactions_query a ∅)) with (@None Z).
    change (q_offset (interactions_query a ∅)) with (@None Z).
    change (q_order (interactions_query a ∅)) with (Some ("created_at", false)).
    cbv beta iota zeta.
    rewrite merge_sort_Permutation. apply list_elem_of_filter. split.
    + apply matches_agent. exact Hagent.
    + change (q_from (interactions_query a ∅)) with crm_interactions.
      rewrite rows_set_rows_ne by done. exact Hrow.
Qed.

(** X27. An interaction that addInteraction returns is among the
    interactions that listInteractions returns next. *)
Theorem logged_interaction_is_listed agentId interaction w data w' :
  CRM.addInteraction agentId interaction w = (Return data, w') →
  ∃ l w'', CRM.listInteractions agentId ∅ w' = (Return l, w'') ∧ data ∈ l.
Proof.
  unfold CRM.addInteraction.
  destruct (negb (truthy (interaction !! "contactId"))); [by intros [=]|].
  destruct (negb (truthy (interaction !! "type"))); [by intros [=]|].
  destruct (negb (truthy (interaction !! "createdBy"))); [by intros [=]|].
  unfold DB.addInteraction. rewrite bind_run.
  destruct (DB.insertInteraction agentId interaction w) as [[d|e] w1] eqn:E1;
    [|by intros [=]].
  apply insertInteraction_full in E1. cbv zeta in E1. destruct E1 as (Hw1 & -> & Hagent).
  rewrite bind_run. unfold new_Date at 1. cbv beta iota. rewrite bind_run.
  destruct (DB.updateContact _ _ _ _) as [[c|e] w3] eqn:E2; [|by intros [=]].
  unfold mret, M_ret. intros [= <- <-].
  apply updateContact_inv in E2. cbv zeta in E2. rewrite touched_changes in E2.
  destruct E2 as (old & _ & _ & Hw3 & _).
  eapply (listed_after_touch agentId _ _
            (after_insert crm_interactions (interaction_payload agentId interaction)
               (server_clock w (tick w)) (store w)));
    [..|exact Hagent].
  5:{ rewrite Hw3, Hw1. reflexivity. }
  1-4: reflexivity.
  rewrite rows_after_insert. apply elem_of_app. right. left.
Qed.

Lemma logged_interaction_is_listed_witness :
  ∃ l w'',
    returns (CRM.addInteraction "acme" note_1 two_contacts) = true ∧
    CRM.listInteractions "acme" ∅ (after (CRM.addInteraction "acme" note_1) two_contacts)
    = (Return l, w'') ∧
    returned ∅ (CRM.addInteraction "acme" note_1 two_contacts) ∈ l.
Proof.
  assert (returns (CRM.addInteraction "acme" note_1 two_contacts) = true) as E
    by (vm_compute; reflexivity).
  destruct (logged_interaction_is_listed "acme" note_1 two_contacts _ _
              (returns_eq ∅ _ _ E)) as (l & w'' & H1 & H2).
  exists l, w''. split_and!; [exact E|exact H1|exact H2].
Defined.
